(** * incline.trend: trend estimators and trend ranking

    A shallow embedding of [src/incline/trend.py] and the properties of its
    four functions, [naive_trend], [spline_trend], [sgolay_trend] and
    [trending].  The module is a thin composition of pandas table
    operations and two scipy routines; the embedding follows the Python
    text statement by statement.

    - A table cell is a dynamically typed value ([cell]).  A number is a
      rational: float arithmetic is taken exact, rounding is not modelled.
    - A [DataFrame] is an index (with its optional name) and an ordered
      list of named columns; column labels are taken distinct.
    - DataFrames are objects: they live in a [heap] and are passed by
      reference, so that [df.copy()] is an allocation and [odf[c] = v],
      [reset_index(inplace=True)] and [odf.columns = ...] are updates in
      place.  A Series is never updated by the module and is a value.
    - An exception is a [Raise] result; the heap survives it.
    - The scipy routines (smoothing spline, Savitzky-Golay filter) and the
      named reductions of pandas other than ['max'] and ['mean'] are an
      interface, [NumericServices].
    - The reductions ['max'] and ['mean'] are modelled on float columns,
      the only ones a trend table aggregates; on a cell that is not a float
      they raise [TypeError]. *)

From Stdlib Require Import ZArith QArith List String Ascii Bool Lia.
From Stdlib Require Import SetoidList.
From stdpp Require Import base list.

Local Open Scope string_scope.
Local Open Scope list_scope.

(** ** Cells, exceptions, results *)

Inductive cell : Type :=
| NaN                 (* float NaN, the missing float *)
| PyNone              (* Python None held in an object column *)
| Num (q : Q)         (* a number *)
| Str (s : string).   (* a string *)

Inductive exn : Type :=
| KeyError | AttributeError | ValueError | TypeError | NameError
| ServiceError (msg : string).

Inductive result (A : Type) : Type :=
| Ok (a : A)
| Raise (e : exn).
Arguments Ok {A} a.
Arguments Raise {A} e.

#[global] Instance result_ret : MRet result := fun _ a => Ok a.
#[global] Instance result_bind : MBind result := fun _ _ f r =>
  match r with Ok a => f a | Raise e => Raise e end.
(** pandas.isna *)
Definition isna (c : cell) : bool :=
  match c with NaN | PyNone => true | _ => false end.

(** Equality of two present values; a missing value equals nothing. *)
Definition cell_eqb (a b : cell) : bool :=
  match a, b with
  | Num p, Num q => Qeq_bool p q
  | Str s, Str t => String.eqb s t
  | _, _ => false
  end.

(** The order in which group keys are sorted: numbers before strings,
    numbers by value, strings lexicographically. *)
Definition cell_leb (a b : cell) : bool :=
  match a, b with
  | Num p, Num q => Qle_bool p q
  | Num _, _ => true
  | Str _, Num _ => false
  | Str s, Str t => String.leb s t
  | Str _, _ => true
  | _, (Num _ | Str _) => false
  | _, _ => true
  end.

Definition of_float (x : option Q) : cell :=
  match x with Some q => Num q | None => NaN end.

Definition of_int (z : Z) : cell := Num (inject_Z z).

(** ** DataFrames *)

Record DataFrame : Type := mkDataFrame {
  index_name : option string;
  index : list cell;
  columns : list (string * list cell)
}.

Definition nrows (df : DataFrame) : nat := length (index df).

Definition with_columns (df : DataFrame) (cols : list (string * list cell))
  : DataFrame :=
  {| index_name := index_name df; index := index df; columns := cols |}.

Fixpoint col_lookup (name : string) (cols : list (string * list cell))
  : option (list cell) :=
  match cols with
  | [] => None
  | (n, c) :: rest => if String.eqb n name then Some c else col_lookup name rest
  end.

Definition has_column (df : DataFrame) (name : string) : bool :=
  match col_lookup name (columns df) with Some _ => true | None => false end.

(** [df[name]] *)
Definition getitem (df : DataFrame) (name : string) : result (list cell) :=
  match col_lookup name (columns df) with
  | Some c => Ok c
  | None => Raise KeyError
  end.

(** [df.name] *)
Definition getattr (df : DataFrame) (name : string) : result (list cell) :=
  match col_lookup name (columns df) with
  | Some c => Ok c
  | None => Raise AttributeError
  end.

(** Assignment to a column keeps the column's place when it exists and
    appends it otherwise. *)
Fixpoint col_set (name : string) (v : list cell)
  (cols : list (string * list cell)) : list (string * list cell) :=
  match cols with
  | [] => [(name, v)]
  | (n, c) :: rest =>
      if String.eqb n name then (name, v) :: rest
      else (n, c) :: col_set name v rest
  end.

(** RangeIndex(n), and the same positions as floats. *)
Definition positions (n : nat) : list Q :=
  map (fun i => inject_Z (Z.of_nat i)) (seq 0 n).

Definition RangeIndex (n : nat) : list cell := map Num (positions n).

(** Every column is as long as the index. *)
Definition wf_frame (df : DataFrame) : Prop :=
  Forall (fun nc => length (snd nc) = nrows df) (columns df).

(** ** Series operations

    Every Series the module builds is derived from one column of a frame and
    carries that frame's index, so label alignment is the identity and a
    Series is its list of values. *)

(** [y.shift(periods)] *)
Definition shift (periods : Z) (y : list cell) : list cell :=
  let n := length y in
  if (0 <=? periods)%Z then
    let p := Nat.min (Z.to_nat periods) n in
    repeat NaN p ++ firstn (n - p) y
  else
    let p := Nat.min (Z.to_nat (- periods)) n in
    skipn p y ++ repeat NaN p.

(** Subtraction of two cells.  A row where an operand is missing (NaN or
    [None]) is masked and gives NaN; a string against a value that is
    present is no number. *)
Definition cell_sub (a b : cell) : result cell :=
  match a, b with
  | Num p, Num q => Ok (Num (p - q))
  | (NaN | PyNone), _ | _, (NaN | PyNone) => Ok NaN
  | _, _ => Raise TypeError
  end.

Fixpoint traverse {A B} (f : A -> result B) (l : list A) : result (list B) :=
  match l with
  | [] => Ok []
  | x :: rest =>
      match f x with
      | Ok y =>
          match traverse f rest with
          | Ok ys => Ok (y :: ys)
          | Raise e => Raise e
          end
      | Raise e => Raise e
      end
  end.

(** [a - b] on two Series of one index *)
Definition series_sub (a b : list cell) : result (list cell) :=
  traverse (fun ab => cell_sub (fst ab) (snd ab)) (combine a b).

(** [a - q] with a scalar *)
Definition series_sub_scalar (a : list cell) (q : Q) : result (list cell) :=
  traverse (fun x => cell_sub x (Num q)) a.

(** The numbers of a list of float cells, NaN skipped. *)
Fixpoint floats_of (l : list cell) : result (list Q) :=
  match l with
  | [] => Ok []
  | NaN :: rest => floats_of rest
  | Num q :: rest =>
      match floats_of rest with
      | Ok qs => Ok (q :: qs)
      | Raise e => Raise e
      end
  | _ :: _ => Raise TypeError
  end.

Definition qmax (a b : Q) : Q := if Qle_bool a b then b else a.

Definition qsum (l : list Q) : Q := fold_left Qplus l 0%Q.

(** The reductions ['mean'] and ['max'], with [skipna]: over no number at
    all the result is NaN. *)
Definition reduce_mean (l : list cell) : result cell :=
  match floats_of l with
  | Ok [] => Ok NaN
  | Ok qs => Ok (Num (qsum qs / inject_Z (Z.of_nat (length qs))))
  | Raise e => Raise e
  end.

Definition reduce_max (l : list cell) : result cell :=
  match floats_of l with
  | Ok [] => Ok NaN
  | Ok (q :: qs) => Ok (Num (fold_left qmax qs q))
  | Raise e => Raise e
  end.

(** [pd.concat(series, axis=1)] of renamed Series of one index *)
Definition concat_axis1 (name : option string) (idx : list cell)
  (named : list (string * list cell)) : DataFrame :=
  {| index_name := name; index := idx; columns := named |}.

(** [df[[n1, n2, ...]]] *)
Definition getitem_list (df : DataFrame) (names : list string)
  : result DataFrame :=
  match traverse (fun n => match getitem df n with
                           | Ok c => Ok (n, c)
                           | Raise e => Raise e
                           end) names with
  | Ok cols => Ok (with_columns df cols)
  | Raise e => Raise e
  end.

Definition row_at (df : DataFrame) (i : nat) : list cell :=
  map (fun nc => nth i (snd nc) NaN) (columns df).

(** [df.mean(axis=1)] *)
Definition mean_axis1 (df : DataFrame) : result (list cell) :=
  traverse (fun i => reduce_mean (row_at df i)) (seq 0 (nrows df)).

(** ** Row selection, concatenation, grouping *)

Fixpoint mask_select {A} (mask : list bool) (l : list A) : list A :=
  match mask, l with
  | b :: mask', x :: l' =>
      if b then x :: mask_select mask' l' else mask_select mask' l'
  | _, _ => []
  end.

(** [df[mask]] with a boolean Series on the frame's index *)
Definition frame_filter (mask : list bool) (df : DataFrame) : DataFrame :=
  {| index_name := index_name df;
     index := mask_select mask (index df);
     columns := map (fun nc => (fst nc, mask_select mask (snd nc))) (columns df) |}.

(** [column == scalar] for an integer scalar *)
Definition eq_scalar (d : Z) (c : cell) : bool :=
  match c with Num q => Qeq_bool q (inject_Z d) | _ => false end.

(** Where the slice [start:] begins in a sequence of [n] items: a negative
    start counts from the end, and both ends clamp. *)
Definition slice_start (start : Z) (n : nat) : nat :=
  if (start <? 0)%Z then Z.to_nat (Z.max 0 (start + Z.of_nat n))
  else Nat.min (Z.to_nat start) n.

(** [df[start:]], the rows from a position on *)
Definition iloc_from (start : Z) (df : DataFrame) : DataFrame :=
  let off := slice_start start (nrows df) in
  {| index_name := index_name df;
     index := skipn off (index df);
     columns := map (fun nc => (fst nc, skipn off (snd nc))) (columns df) |}.

(** The column labels of several frames in the order of first appearance
    ([sort=False]). *)
Fixpoint add_names (acc names : list string) : list string :=
  match names with
  | [] => acc
  | n :: rest =>
      add_names (if existsb (String.eqb n) acc then acc else acc ++ [n]) rest
  end.

Definition all_names (dfs : list DataFrame) : list string :=
  fold_left (fun acc df => add_names acc (map fst (columns df))) dfs [].

Definition column_or_nan (name : string) (df : DataFrame) : list cell :=
  match col_lookup name (columns df) with
  | Some c => c
  | None => repeat NaN (nrows df)
  end.

Definition name_eqb (a b : option string) : bool :=
  match a, b with
  | Some s, Some t => String.eqb s t
  | None, None => true
  | _, _ => false
  end.

Definition common_name (dfs : list DataFrame) : option string :=
  match dfs with
  | [] => None
  | d :: rest =>
      if forallb (fun d' => name_eqb (index_name d') (index_name d)) rest
      then index_name d else None
  end.

(** [pd.concat(dfs, sort=False)]: rows stacked, columns united, a frame
    without a column contributing NaN; nothing to concatenate is an error. *)
Definition pd_concat (dfs : list DataFrame) : result DataFrame :=
  match dfs with
  | [] => Raise ValueError
  | _ =>
      Ok {| index_name := common_name dfs;
            index := flat_map index dfs;
            columns := map (fun n => (n, flat_map (column_or_nan n) dfs))
                           (all_names dfs) |}
  end.

(** Distinct keys in the order of first appearance. *)
Fixpoint unique (l : list cell) : list cell :=
  match l with
  | [] => []
  | x :: rest => x :: List.filter (fun y => negb (cell_eqb x y)) (unique rest)
  end.

Fixpoint insert_sorted (x : cell) (l : list cell) : list cell :=
  match l with
  | [] => [x]
  | y :: rest => if cell_leb x y then x :: y :: rest else y :: insert_sorted x rest
  end.

Definition sort_keys (l : list cell) : list cell :=
  fold_right insert_sorted [] l.

(** The group keys of a key column: missing keys dropped, the rest distinct
    and sorted ([dropna=True], [sort=True], the defaults). *)
Definition group_keys (keys : list cell) : list cell :=
  sort_keys (unique (List.filter (fun c => negb (isna c)) keys)).

Definition group_values (key : cell) (keys vals : list cell) : list cell :=
  mask_select (map (cell_eqb key) keys) vals.

(** What [groupby(by)] groups on: a column label, or the index when it
    carries that name; a label that is both is ambiguous. *)
Definition grouper (df : DataFrame) (by_ : string) : result (list cell) :=
  match col_lookup by_ (columns df) with
  | Some c =>
      if name_eqb (index_name df) (Some by_) then Raise ValueError else Ok c
  | None =>
      if name_eqb (index_name df) (Some by_) then Ok (index df)
      else Raise KeyError
  end.

(** [df.reset_index()]: the index becomes the first column, under its name
    or a default one, and the rows are numbered afresh. *)
Definition reset_index (df : DataFrame) : result DataFrame :=
  let name :=
    match index_name df with
    | Some s => s
    | None => if has_column df "index" then "level_0" else "index"
    end in
  if has_column df name then Raise ValueError
  else Ok {| index_name := None;
             index := RangeIndex (nrows df);
             columns := (name, index df) :: columns df |}.

(** ** The heap of DataFrame objects *)

Abbreviation heap := (list DataFrame) (only parsing).
Abbreviation ref := nat (only parsing).

Definition M (A : Type) : Type := heap -> heap * result A.

#[global] Instance M_ret : MRet M := fun _ a h => (h, Ok a).
#[global] Instance M_bind : MBind M := fun _ _ f m h =>
  match m h with
  | (h', Ok a) => f a h'
  | (h', Raise e) => (h', Raise e)
  end.

Definition raise {A} (e : exn) : M A := fun h => (h, Raise e).
Definition lift {A} (r : result A) : M A := fun h => (h, r).

Definition alloc (df : DataFrame) : M ref :=
  fun h => (h ++ [df], Ok (length h)).

Definition load (r : ref) : M DataFrame :=
  fun h => (h, match h !! r with Some d => Ok d | None => Raise NameError end).

Definition store (r : ref) (df : DataFrame) : M unit :=
  fun h => (<[r := df]> h, Ok tt).

(** [df.copy()] *)
Definition copy (r : ref) : M ref := d ← load r; alloc d.

(** [odf[name] = series], the Series carrying the frame's own index *)
Definition setitem_series (r : ref) (name : string) (vals : list cell)
  : M unit :=
  d ← load r; store r (with_columns d (col_set name vals (columns d))).

(** [odf[name] = scalar] *)
Definition setitem_scalar (r : ref) (name : string) (c : cell) : M unit :=
  d ← load r;
  store r (with_columns d (col_set name (repeat c (nrows d)) (columns d))).

(** [odf[name] = array].  The lengths must agree, except that a frame with
    no row takes the length of a non-empty array (its other columns filled
    with NaN). *)
Definition setitem_array (r : ref) (name : string) (vals : list cell)
  : M unit :=
  d ← load r;
  if (nrows d =? 0)%nat && negb (length vals =? 0)%nat then
    store r {| index_name := index_name d;
               index := RangeIndex (length vals);
               columns := col_set name vals
                            (map (fun nc => (fst nc, repeat NaN (length vals)))
                                 (columns d)) |}
  else if (length vals =? nrows d)%nat then
    store r (with_columns d (col_set name vals (columns d)))
  else raise ValueError.

(** [odf.reset_index(inplace=True)] *)
Definition reset_index_inplace (r : ref) : M unit :=
  d ← load r; d' ← lift (reset_index d); store r d'.

(** [odf.columns = names] *)
Definition set_columns (r : ref) (names : list string) : M unit :=
  d ← load r;
  if (length names =? length (columns d))%nat then
    store r (with_columns d (combine names (map snd (columns d))))
  else raise ValueError.

(** ** The numeric services

    scipy's [UnivariateSpline] (construction and evaluation of the [nu]-th
    derivative) and [savgol_filter], and pandas' named reductions other than
    the two the module names.  Both evaluations return an array of the shape
    of their input. *)

Class NumericServices : Type := {
  Spline : Type;
  UnivariateSpline : list Q -> list cell -> Z -> Q -> result Spline;
  spline_call : Spline -> list Q -> Z -> result (list (option Q));
  savgol_filter : list cell -> Z -> Z -> Z -> result (list (option Q));
  named_reduction : string -> option (list cell -> result cell);
  spline_call_shape : forall spl x nu out,
    spline_call spl x nu = Ok out -> length out = length x;
  savgol_filter_shape : forall y w p d out,
    savgol_filter y w p d = Ok out -> length out = length y
}.

(** The filter's documented constraint: the window is at most as long as
    the data. *)
Definition rejects_long_window `{NumericServices} : Prop :=
  forall y w p d, (Z.of_nat (length y) < w)%Z ->
    exists e, savgol_filter y w p d = Raise e.

Section Program.
Context `{NumericServices}.

(** The reduction a string names in [agg]. *)
Definition reduction_of (name : string) : result (list cell -> result cell) :=
  if String.eqb name "max" then Ok reduce_max
  else if String.eqb name "mean" then Ok reduce_mean
  else match named_reduction name with
       | Some f => Ok f
       | None => Raise AttributeError
       end.

(** [df.groupby(by).agg({col: how})]: one row per group key, indexed by
    the keys. *)
Definition groupby_agg (df : DataFrame) (by_ col how : string)
  : result DataFrame :=
  keys ← grouper df by_;
  vals ← getitem df col;
  f ← reduction_of how;
  let ks := group_keys keys in
  scores ← traverse (fun key => f (group_values key keys vals)) ks;
  mret {| index_name := Some by_; index := ks; columns := [(col, scores)] |}.

(** *** naive_trend (trend.py, lines 8-38) *)
Definition naive_trend (df : ref) (column_value : string) : M ref :=
  d ← load df;
  y ← lift (getitem d column_value);
  let y_1 := shift 1 y in
  let y_2 := shift (-1) y in
  y1_diff ← lift (series_sub y_1 y);
  y_y ← lift (series_sub y y);
  yneg1_diff ← lift (series_sub_scalar y_y 2);
  let yy := concat_axis1 (index_name d) (index d)
              [("orig", y); ("plus_1", y_1); ("min_1", y_2);
               ("plus_1_diff", y1_diff); ("min_1_diff", yneg1_diff)] in
  odf ← copy df;
  sel ← lift (getitem_list yy ["plus_1_diff"; "min_1_diff"]);
  m ← lift (mean_axis1 sel);
  setitem_series odf "derivative_value" m;;
  setitem_scalar odf "derivative_method" (Str "naive");;
  setitem_scalar odf "function_order" PyNone;;
  setitem_scalar odf "derivative_order" (of_int 1);;
  mret odf.

(** *** spline_trend (trend.py, lines 41-70) *)
Definition spline_trend (df : ref) (column_value : string)
  (function_order derivative_order : Z) (s : Q) : M ref :=
  d ← load df;
  rdf ← lift (reset_index d);
  let x := positions (nrows rdf) in
  y ← lift (getitem d column_value);
  spl ← lift (UnivariateSpline x y function_order s);
  odf ← copy df;
  sm ← lift (spline_call spl x 0);
  setitem_array odf "smoothed_value" (map of_float sm);;
  dv ← lift (spline_call spl x derivative_order);
  setitem_array odf "derivative_value" (map of_float dv);;
  setitem_scalar odf "function_order" (of_int function_order);;
  setitem_scalar odf "derivative_method" (Str "spline");;
  setitem_scalar odf "derivative_order" (of_int derivative_order);;
  mret odf.

(** *** sgolay_trend (trend.py, lines 73-105) *)
Definition sgolay_trend (df : ref) (column_value : string)
  (function_order derivative_order window_length : Z) : M ref :=
  d ← load df;
  y ← lift (getitem d column_value);
  odf ← copy df;
  sm ← lift (savgol_filter y window_length function_order 0);
  setitem_array odf "smoothed_value" (map of_float sm);;
  dv ← lift (savgol_filter y window_length function_order derivative_order);
  setitem_array odf "derivative_value" (map of_float dv);;
  setitem_scalar odf "function_order" (of_int function_order);;
  setitem_scalar odf "derivative_method" (Str "sgolay");;
  setitem_scalar odf "derivative_order" (of_int derivative_order);;
  mret odf.

(** *** trending (trend.py, lines 108-148) *)

(** [df[df.derivative_order == derivative_order][-k:]] *)
Definition tail_window (derivative_order k : Z) (df : DataFrame)
  : result DataFrame :=
  col ← getattr df "derivative_order";
  mret (iloc_from (- k) (frame_filter (map (eq_scalar derivative_order) col) df)).

(** The loop filling [cdf]. *)
Fixpoint tail_windows (df_list : list ref) (derivative_order k : Z)
  : M (list DataFrame) :=
  match df_list with
  | [] => mret []
  | df :: rest =>
      d ← load df;
      w ← lift (tail_window derivative_order k d);
      ws ← tail_windows rest derivative_order k;
      mret (w :: ws)
  end.

Definition trending (df_list : list ref) (column_id : string)
  (derivative_order : Z) (max_or_avg : string) (k : Z) : M ref :=
  cdf ← tail_windows df_list derivative_order k;
  tdf ← lift (pd_concat cdf);
  let max_or_avg := if String.eqb max_or_avg "avg" then "mean" else max_or_avg in
  o ← lift (groupby_agg tdf "id" "derivative_value" max_or_avg);
  odf ← alloc o;
  reset_index_inplace odf;;
  set_columns odf ["id"; "max_or_avg"];;
  mret odf.

End Program.

(** ** Heap footprint

    [hoare h0 m Q]: run from any heap that still begins with [h0], the
    computation [m] ends, normally or by an exception, in a heap that still
    begins with [h0], and a value it returns satisfies [Q]. *)

Definition hoare (h0 : heap) {A} (m : M A) (Q : A -> Prop) : Prop :=
  forall h, h0 `prefix_of` h ->
    h0 `prefix_of` fst (m h) /\ forall a, snd (m h) = Ok a -> Q a.

(** The outcome [out] of a call made in the heap [h] left every object of
    [h] as it was, and the table it returns, if any, is not one of them. *)
Definition unchanged (h : heap) (out : heap * result nat) : Prop :=
  take (length h) (fst out) = h /\
  match snd out with Ok o => length h <= o | Raise _ => True end.

(** ** Trend tables (section 3 of the specification)

    A trend table carries the columns [trending] reads; its
    [derivative_value] is a float column, and its index is not itself
    called [id]. *)

Definition float_cell (c : cell) : bool :=
  match c with NaN | Num _ => true | _ => false end.

Record trend_table (df : DataFrame) : Prop := {
  tt_wf : wf_frame df;
  tt_order : has_column df "derivative_order" = true;
  tt_id : has_column df "id" = true;
  tt_value : exists vals, col_lookup "derivative_value" (columns df) = Some vals
                          /\ forallb float_cell vals = true;
  tt_index : index_name df <> Some "id"
}.

(** The table carries the id [c] of its series on every row. *)
Definition carries_id (c : cell) (df : DataFrame) : Prop :=
  isna c = false /\
  col_lookup "id" (columns df) = Some (repeat c (nrows df)).

(** The rows of a table tagged with a derivative order. *)
Definition matching_rows (derivative_order : Z) (df : DataFrame) : nat :=
  match col_lookup "derivative_order" (columns df) with
  | Some col => length (List.filter (fun c => eq_scalar derivative_order c) col)
  | None => 0
  end.

(** Two present values that compare equal. *)
Definition same_key (a b : cell) : Prop := cell_eqb a b = true.

(** ** The specification's words, for comparison with the program *)

(** The centered first difference: the average of the forward
    and the backward difference, and the one difference there is at the
    first and the last row. *)
Definition centered_difference (y : list Q) (i : nat) : option Q :=
  match nth_error y i with
  | None => None
  | Some yi =>
      let fwd := match nth_error y (S i) with
                 | Some yn => Some (yn - yi)%Q | None => None end in
      let bwd := match i with
                 | O => None
                 | S j => match nth_error y j with
                          | Some yp => Some (yi - yp)%Q | None => None end
                 end in
      match fwd, bwd with
      | Some f, Some b => Some ((f + b) / 2)%Q
      | Some f, None => Some f
      | None, Some b => Some b
      | None, None => None
      end
  end.

(** Scores ordered from maximum to minimum. *)
Fixpoint descending (scores : list Q) : Prop :=
  match scores with
  | a :: (b :: _) as rest => (b <= a)%Q /\ descending rest
  | _ => True
  end.

(** The last [k] items of a list. *)
Definition last_k {A} (k : nat) (l : list A) : list A :=
  skipn (length l - k) l.

(** A row of a trend table as [trending] sees it. *)
Record trend_row : Type := {
  row_order : cell;
  row_id : cell;
  row_value : cell
}.

(** The ranking procedure in words, on tables given row by row: keep the rows of
    the requested order, take the last [k] of them, pool the tables, group
    by id, aggregate the values of each group. *)
Definition pooled_tail_windows (derivative_order : Z) (k : nat)
  (tables : list (list trend_row)) : list trend_row :=
  flat_map (fun t =>
    last_k k (List.filter (fun r => eq_scalar derivative_order (row_order r)) t))
    tables.

Definition group_scores (agg : list cell -> result cell)
  (pooled : list trend_row) : result (list (cell * cell)) :=
  traverse (fun key =>
    match agg (map row_value
                 (List.filter (fun r => cell_eqb key (row_id r)) pooled)) with
    | Ok v => Ok (key, v)
    | Raise e => Raise e
    end) (group_keys (map row_id pooled)).

Definition ranking_by_words (derivative_order : Z) (max_or_avg : string)
  (k : nat) (tables : list (list trend_row)) : result (list (cell * cell)) :=
  let pooled := pooled_tail_windows derivative_order k tables in
  if String.eqb max_or_avg "max" then group_scores reduce_max pooled
  else if String.eqb max_or_avg "avg" then group_scores reduce_mean pooled
  else Raise ValueError.

(** The rows of a frame, read off its three columns. *)
Fixpoint zip_rows (os is_ vs : list cell) : list trend_row :=
  match os, is_, vs with
  | o :: os', i :: is', v :: vs' =>
      {| row_order := o; row_id := i; row_value := v |} :: zip_rows os' is' vs'
  | _, _, _ => []
  end.

Definition rows_of (df : DataFrame) : list trend_row :=
  zip_rows (column_or_nan "derivative_order" df)
           (column_or_nan "id" df)
           (column_or_nan "derivative_value" df).

(** ** A small instance of the numeric services

    Exact on the configurations it accepts and refusing the others: the
    smoothing spline of constant data is that constant; a Savitzky-Golay
    window of one point with a polynomial of degree zero returns the data,
    and zero for its derivatives.  A window longer than the data is
    rejected, as the filter documents. *)

Definition all_equal_to (c : Q) (y : list cell) : bool :=
  forallb (fun v => match v with Num q => Qeq_bool q c | _ => false end) y.

Definition constant_spline (x : list Q) (y : list cell) (k : Z) (s : Q)
  : result (Q * Z) :=
  match y with
  | Num c :: _ =>
      if ((1 <=? k) && (k <=? 5))%Z && (k <? Z.of_nat (length x))%Z
         && (length x =? length y)%nat && Qle_bool 0 s && all_equal_to c y
      then Ok (c, k) else Raise (ServiceError "unsupported")
  | _ => Raise (ServiceError "unsupported")
  end.

(** The [nu]-th derivative of the constant spline of degree [k], for
    [0 <= nu <= k]. *)
Definition constant_spline_call (spl : Q * Z) (x : list Q) (nu : Z)
  : result (list (option Q)) :=
  if ((0 <=? nu) && (nu <=? snd spl))%Z
  then Ok (map (fun _ => Some (if (nu =? 0)%Z then fst spl else 0%Q)) x)
  else Raise ValueError.

Definition pointwise_savgol (y : list cell) (w p d : Z)
  : result (list (option Q)) :=
  if (Z.of_nat (length y) <? w)%Z then Raise ValueError
  else if ((w =? 1) && (p =? 0) && (0 <=? d))%Z then
    match floats_of y with
    | Ok qs =>
        if (length qs =? length y)%nat
        then Ok (map (fun q => Some (if (d =? 0)%Z then q else 0%Q)) qs)
        else Raise (ServiceError "unsupported")
    | Raise e => Raise e
    end
  else Raise (ServiceError "unsupported").

Definition small_services : NumericServices.
Proof.
  refine {| Spline := (Q * Z)%type;
            UnivariateSpline := constant_spline;
            spline_call := constant_spline_call;
            savgol_filter := pointwise_savgol;
            named_reduction := fun _ => None |}.
  - intros spl x nu out Hrun. unfold constant_spline_call in Hrun.
    destruct ((0 <=? nu) && (nu <=? snd spl))%Z; [|discriminate].
    inversion Hrun. apply length_map.
  - intros y w p d out Hrun. unfold pointwise_savgol in Hrun.
    destruct (Z.of_nat (length y) <? w)%Z; [discriminate|].
    destruct ((w =? 1) && (p =? 0) && (0 <=? d))%Z; [|discriminate].
    destruct (floats_of y) as [qs|]; [|discriminate].
    destruct (Nat.eqb_spec (length qs) (length y)) as [Hlen|]; [|discriminate].
    inversion Hrun. rewrite length_map. exact Hlen.
Defined.

(** ** Example tables *)

(** A time series on a RangeIndex, with further columns. *)
Definition series (vals : list Z) (extra : list (string * list cell))
  : DataFrame :=
  {| index_name := None;
     index := RangeIndex (length vals);
     columns := ("value", map of_int vals) :: extra |}.

(** A trend table of first derivatives for the series [id]. *)
Definition tagged (id : string) (vals : list Z) (dvals : list Q) (order : Z)
  : DataFrame :=
  series vals [("id", repeat (Str id) (length vals));
               ("derivative_value", map Num dvals);
               ("derivative_order", repeat (of_int order) (length vals))].

(** ** Auxiliary definitions of the statements *)

(** The table [naive_trend] builds from [d] once the row means [m] are
    known. *)
Definition naive_frame (d : DataFrame) (m : list cell) : DataFrame :=
  with_columns d
    (col_set "derivative_order" (repeat (of_int 1) (nrows d))
      (col_set "function_order" (repeat PyNone (nrows d))
        (col_set "derivative_method" (repeat (Str "naive") (nrows d))
          (col_set "derivative_value" m (columns d))))).

(** The table [spline_trend] and [sgolay_trend] build from [d]. *)
Definition estimate_frame (method : string) (d : DataFrame)
  (sm dv : list (option Q)) (function_order derivative_order : Z)
  : DataFrame :=
  with_columns d
    (col_set "derivative_order" (repeat (of_int derivative_order) (nrows d))
      (col_set "derivative_method" (repeat (Str method) (nrows d))
        (col_set "function_order" (repeat (of_int function_order) (nrows d))
          (col_set "derivative_value" (map of_float dv)
            (col_set "smoothed_value" (map of_float sm) (columns d)))))).

Definition written_columns : list string :=
  ["smoothed_value"; "derivative_value"; "function_order";
   "derivative_method"; "derivative_order"].

(** [odf] has the rows of [d]: the same index, entry by entry, every column
    as long as it, and the columns an estimator does not write as they
    were. *)
Definition same_rows (d odf : DataFrame) : Prop :=
  index odf = index d /\ nrows odf = nrows d /\ wf_frame odf /\
  forall c, ~ In c written_columns ->
    col_lookup c (columns odf) = col_lookup c (columns d).

(** Every row of [odf] carries [v] in the column [name]. *)
Definition tagged_with (odf : DataFrame) (name : string) (v : cell) : Prop :=
  getitem odf name = Ok (repeat v (nrows odf)).

Definition constant_series : DataFrame := series [7; 7; 7; 7; 7]%Z [].
Definition short_series : DataFrame := series [7; 8; 9]%Z [].


(** What [naive_trend] computes at a row holding [q] whose predecessor
    holds [prev]: the mean of the two differences it forms there. *)
Definition naive_row (prev : option Q) (q : Q) : Q :=
  match prev with
  | Some p => (qsum [p - q; q - q - 2] / inject_Z 2)%Q
  | None => (qsum [q - q - 2] / inject_Z 1)%Q
  end.

Fixpoint naive_rows (prev : option Q) (y : list Q) : list cell :=
  match y with
  | [] => []
  | q :: rest => Num (naive_row prev q) :: naive_rows (Some q) rest
  end.

(** [y.shift(1) - y] on a numeric column. *)
Fixpoint lagged_diffs (prev : option Q) (y : list Q) : list cell :=
  match y with
  | [] => []
  | q :: rest =>
      of_float (option_map (fun p => (p - q)%Q) prev) :: lagged_diffs (Some q) rest
  end.

Definition rising_series : DataFrame := series [1; 2; 4]%Z [].

(** The ranking table: a fresh RangeIndex, the group keys under [id] and
    their scores under [max_or_avg]. *)
Definition ranking_table (ids scores : list cell) : DataFrame :=
  {| index_name := None;
     index := RangeIndex (length ids);
     columns := [("id", ids); ("max_or_avg", scores)] |}.

(** The name [trending] hands to [agg]. *)
Definition agg_name (max_or_avg : string) : string :=
  if String.eqb max_or_avg "avg" then "mean" else max_or_avg.

(** The reduction behind the two documented values of [max_or_avg]. *)
Definition documented_reduction (max_or_avg : string)
  : list cell -> result cell :=
  if String.eqb max_or_avg "avg" then reduce_mean else reduce_max.

(** What a tail window needs for the pooled table to be grouped and
    aggregated. *)
Definition good_window (w : DataFrame) : Prop :=
  has_column w "id" = true /\
  has_column w "derivative_value" = true /\
  index_name w <> Some "id" /\
  forallb float_cell (column_or_nan "derivative_value" w) = true.

(** ** Example heaps *)

Definition table_A : DataFrame :=
  tagged "A" [1; 2; 3; 4; 5]%Z [1; 1; 1; 1; 1]%Q 1.
Definition table_B : DataFrame :=
  tagged "B" [5; 4; 3; 2; 1]%Z [-1; -1; -1; -1; -1]%Q 1.

(** A table of second derivatives only, and one whose first derivative
    was large long ago. *)
Definition second_order_only : DataFrame :=
  tagged "A" [1; 2; 3]%Z [1; 1; 1]%Q 2.
Definition early_peak : DataFrame :=
  tagged "A" [1; 2; 3; 4; 5]%Z [9; 1; 1; 1; 1]%Q 1.

Definition falling_A : DataFrame :=
  tagged "A" [5; 4; 3; 2; 1]%Z [-1; -1; -1; -1; -1]%Q 1.
Definition rising_B : DataFrame :=
  tagged "B" [1; 2; 3; 4; 5]%Z [1; 1; 1; 1; 1]%Q 1.

(** The order of the group keys. *)
Definition key_le (a b : cell) : Prop := cell_leb a b = true.

(** ** Columns without strings

    Subtraction and the mean of a pair on cells that are numbers or
    missing (NaN, [None]), where they cannot raise. *)

Definition number_or_missing (c : cell) : bool :=
  match c with Str _ => false | _ => true end.

Definition float_sub (a b : cell) : cell :=
  match a, b with
  | Num p, Num q => Num (p - q)
  | _, _ => NaN
  end.

Definition mean2 (a b : cell) : cell :=
  match a, b with
  | Num p, Num q => Num (qsum [p; q] / inject_Z 2)
  | Num p, _ => Num (qsum [p] / inject_Z 1)
  | _, Num q => Num (qsum [q] / inject_Z 1)
  | _, _ => NaN
  end.

(** [y.shift(1) - y] on a column without strings, [prev] standing before
    it. *)
Fixpoint lagged (prev : cell) (y : list cell) : list cell :=
  match y with
  | [] => []
  | c :: rest => float_sub prev c :: lagged c rest
  end.

(** The [derivative_value] column [naive_trend] computes on a column
    without strings. *)
Fixpoint naive_cells (prev : cell) (y : list cell) : list cell :=
  match y with
  | [] => []
  | c :: rest =>
      mean2 (float_sub prev c) (float_sub (float_sub c c) (Num 2))
      :: naive_cells c rest
  end.

Definition column_names (df : DataFrame) : list string :=
  map fst (columns df).

Definition naive_columns : list string :=
  ["derivative_value"; "derivative_method"; "function_order";
   "derivative_order"].

(** A series with missing values, and a table of labels. *)
Definition gappy_series : DataFrame :=
  {| index_name := None;
     index := RangeIndex 4;
     columns := [("value", [Num 1; NaN; Num 4; PyNone])] |}.

Definition label_table : DataFrame :=
  {| index_name := None;
     index := RangeIndex 2;
     columns := [("value", [Num 1; Str "two"])] |}.

Definition is_ok {A} (r : result A) : bool :=
  match r with Ok _ => true | Raise _ => false end.

(** A table of a series named otherwise than by [id]. *)
Definition series_keyed : DataFrame :=
  series [1; 2; 3]%Z [("series", repeat (Str "A") 3);
                      ("derivative_value", map Num [1; 2; 3]%Q);
                      ("derivative_order", repeat (of_int 1) 3)].

(** The numbers among the cells of a group. *)
Definition numbers_of (l : list cell) : list Q :=
  flat_map (fun c => match c with Num q => [q] | _ => [] end) l.

(** Two tables with the same three columns [trending] reads. *)
Definition reads_alike (df df' : DataFrame) : Prop :=
  col_lookup "derivative_order" (columns df)
  = col_lookup "derivative_order" (columns df') /\
  col_lookup "id" (columns df) = col_lookup "id" (columns df') /\
  col_lookup "derivative_value" (columns df)
  = col_lookup "derivative_value" (columns df').

(** [table_A] under other index labels, other values and a further
    column. *)
Definition table_A_relabelled : DataFrame :=
  {| index_name := Some "day";
     index := map Str ["mon"; "tue"; "wed"; "thu"; "fri"];
     columns := [("derivative_order", repeat (of_int 1) 5);
                 ("value", map of_int [10; 20; 30; 40; 50]%Z);
                 ("id", repeat (Str "A") 5);
                 ("note", repeat PyNone 5);
                 ("derivative_value", map Num [1; 1; 1; 1; 1]%Q)] |}.

(** A series whose index is named like its column, and [short_series]
    under dates. *)
Definition value_indexed_series : DataFrame :=
  {| index_name := Some "value";
     index := RangeIndex 3;
     columns := [("value", map of_int [7; 8; 9]%Z)] |}.

Definition dated_series : DataFrame :=
  {| index_name := Some "date";
     index := map Str ["2012-01-01"; "2012-01-02"; "2012-01-03"];
     columns := [("value", map of_int [7; 8; 9]%Z)] |}.

(** One table holding the rows of two series, [A] above [B]. *)
Definition two_ids_table : DataFrame :=
  series [1; 2; 3]%Z [("id", [Str "A"; Str "A"; Str "B"]);
                      ("derivative_value", map Num [1; 2; 3]%Q);
                      ("derivative_order", repeat (of_int 1) 3)].

(** * Properties *)

(** ** Columns *)

Lemma col_lookup_set_eq name v cols :
  col_lookup name (col_set name v cols) = Some v.
Proof.
  induction cols as [|[n c] rest IH]; simpl.
  - now rewrite String.eqb_refl.
  - destruct (String.eqb n name) eqn:E; simpl.
    + now rewrite String.eqb_refl.
    + now rewrite E.
Qed.

Lemma col_lookup_set_ne name other v cols :
  other <> name ->
  col_lookup other (col_set name v cols) = col_lookup other cols.
Proof.
  intros Hne. induction cols as [|[n c] rest IH]; simpl.
  - destruct (String.eqb_spec name other); congruence.
  - destruct (String.eqb_spec n name) as [->|Hn]; simpl.
    + destruct (String.eqb_spec name other); congruence.
    + now rewrite IH.
Qed.

Lemma col_set_lengths n name v cols :
  length v = n ->
  Forall (fun nc => length (snd nc) = n) cols ->
  Forall (fun nc => length (snd nc) = n) (col_set name v cols).
Proof.
  intros Hv Hall. induction Hall as [|nc rest Hc Hrest IH]; simpl.
  - constructor; [exact Hv | constructor].
  - destruct nc as [m c]. destruct (String.eqb m name); constructor; auto.
Qed.

Lemma col_lookup_length n name c cols :
  Forall (fun nc => length (snd nc) = n) cols ->
  col_lookup name cols = Some c -> length c = n.
Proof.
  induction 1 as [|nc rest Hv Hrest IH]; simpl; [discriminate|].
  destruct nc as [m v]. destruct (String.eqb m name); [|exact IH].
  intros [= <-]. exact Hv.
Qed.

Lemma traverse_length {A B} (f : A -> result B) l out :
  traverse f l = Ok out -> length out = length l.
Proof.
  revert out. induction l as [|x rest IH]; simpl; intros out Hrun.
  - inversion Hrun. reflexivity.
  - destruct (f x); [|discriminate].
    destruct (traverse f rest) as [ys|]; [|discriminate].
    inversion Hrun. simpl. f_equal. now apply IH.
Qed.

Lemma length_positions n : length (positions n) = n.
Proof. unfold positions. now rewrite length_map, length_seq. Qed.

Lemma length_RangeIndex n : length (RangeIndex n) = n.
Proof. unfold RangeIndex. now rewrite length_map, length_positions. Qed.

(** ** Running the heap operations *)

Lemma bind_run {A B} (m : M A) (f : A -> M B) h :
  (m ≫= f) h =
  match m h with
  | (h', Ok a) => f a h'
  | (h', Raise e) => (h', Raise e)
  end.
Proof. reflexivity. Qed.

Lemma lookup_fresh (h : heap) d : (h ++ [d]) !! length h = Some d.
Proof. rewrite lookup_app_r by lia. now rewrite Nat.sub_diag. Qed.

Lemma insert_fresh (h : heap) d d' : <[length h := d']> (h ++ [d]) = h ++ [d'].
Proof. rewrite insert_app_r_alt by lia. now rewrite Nat.sub_diag. Qed.

Lemma load_fresh (h : heap) d : load (length h) (h ++ [d]) = (h ++ [d], Ok d).
Proof. unfold load. now rewrite lookup_fresh. Qed.

Lemma store_fresh (h : heap) d d' :
  store (length h) d' (h ++ [d]) = (h ++ [d'], Ok tt).
Proof. unfold store. now rewrite insert_fresh. Qed.

Lemma setitem_series_fresh (h : heap) d name vals :
  setitem_series (length h) name vals (h ++ [d]) =
  (h ++ [with_columns d (col_set name vals (columns d))], Ok tt).
Proof.
  unfold setitem_series. rewrite bind_run, load_fresh. apply store_fresh.
Qed.

Lemma setitem_scalar_fresh (h : heap) d name c :
  setitem_scalar (length h) name c (h ++ [d]) =
  (h ++ [with_columns d (col_set name (repeat c (nrows d)) (columns d))], Ok tt).
Proof.
  unfold setitem_scalar. rewrite bind_run, load_fresh. apply store_fresh.
Qed.

Lemma setitem_array_fresh (h : heap) d name vals :
  length vals = nrows d ->
  setitem_array (length h) name vals (h ++ [d]) =
  (h ++ [with_columns d (col_set name vals (columns d))], Ok tt).
Proof.
  intros Hlen. unfold setitem_array. rewrite bind_run, load_fresh.
  rewrite Hlen. destruct (nrows d =? 0)%nat; simpl;
    rewrite Nat.eqb_refl; apply store_fresh.
Qed.

Lemma setitem_array_mismatch (h : heap) d name vals :
  nrows d <> 0%nat -> length vals <> nrows d ->
  setitem_array (length h) name vals (h ++ [d]) = (h ++ [d], Raise ValueError).
Proof.
  intros Hrows Hlen. unfold setitem_array. rewrite bind_run, load_fresh.
  destruct (Nat.eqb_spec (nrows d) 0); [contradiction|]. simpl.
  destruct (Nat.eqb_spec (length vals) (nrows d)); [contradiction|].
  reflexivity.
Qed.

(** ** The footprint rules *)

Section Footprint.
Context `{NumericServices}.
Variable h0 : heap.

Lemma hoare_ret {A} (a : A) (Q : A -> Prop) : Q a -> hoare h0 (mret a) Q.
Proof. intros HQ h Hpre. split; [exact Hpre|]. now intros a' [= <-]. Qed.

Lemma hoare_bind {A B} (m : M A) (f : A -> M B) (P : A -> Prop) (Q : B -> Prop) :
  hoare h0 m P -> (forall a, P a -> hoare h0 (f a) Q) -> hoare h0 (m ≫= f) Q.
Proof.
  intros Hm Hf h Hpre. rewrite bind_run.
  destruct (Hm h Hpre) as [Hext HP].
  destruct (m h) as [h' [a|e]]; simpl in *.
  - apply (Hf a); auto.
  - split; [exact Hext | discriminate].
Qed.

Lemma hoare_lift {A} (r : result A) : hoare h0 (lift r) (fun _ => True).
Proof. intros h Hpre. split; [exact Hpre | trivial]. Qed.

Lemma hoare_raise {A} (e : exn) (Q : A -> Prop) : hoare h0 (raise e) Q.
Proof. intros h Hpre. split; [exact Hpre | discriminate]. Qed.

Lemma hoare_load r : hoare h0 (load r) (fun _ => True).
Proof. intros h Hpre. split; [exact Hpre | trivial]. Qed.

Lemma hoare_alloc d : hoare h0 (alloc d) (fun r => length h0 <= r).
Proof.
  intros h Hpre. simpl. split.
  - now apply prefix_app_r.
  - intros a [= <-]. now apply prefix_length.
Qed.

Lemma hoare_store r d : length h0 <= r -> hoare h0 (store r d) (fun _ => True).
Proof.
  intros Hr h [t ->]. unfold store. cbn [fst snd]. split; [|trivial].
  rewrite insert_app_r_alt by exact Hr. now apply prefix_app_r.
Qed.

Lemma hoare_copy r : hoare h0 (copy r) (fun o => length h0 <= o).
Proof.
  unfold copy. eapply hoare_bind; [apply hoare_load|].
  intros d _. apply hoare_alloc.
Qed.

Lemma hoare_setitem_series r name vals :
  length h0 <= r -> hoare h0 (setitem_series r name vals) (fun _ => True).
Proof.
  intros Hr. unfold setitem_series. eapply hoare_bind; [apply hoare_load|].
  intros d _. now apply hoare_store.
Qed.

Lemma hoare_setitem_scalar r name c :
  length h0 <= r -> hoare h0 (setitem_scalar r name c) (fun _ => True).
Proof.
  intros Hr. unfold setitem_scalar. eapply hoare_bind; [apply hoare_load|].
  intros d _. now apply hoare_store.
Qed.

Lemma hoare_setitem_array r name vals :
  length h0 <= r -> hoare h0 (setitem_array r name vals) (fun _ => True).
Proof.
  intros Hr. unfold setitem_array. eapply hoare_bind; [apply hoare_load|].
  intros d _.
  destruct ((nrows d =? 0)%nat && negb (length vals =? 0)%nat);
    [now apply hoare_store|].
  destruct (length vals =? nrows d)%nat;
    [now apply hoare_store | apply hoare_raise].
Qed.

Lemma hoare_reset_index_inplace r :
  length h0 <= r -> hoare h0 (reset_index_inplace r) (fun _ => True).
Proof.
  intros Hr. unfold reset_index_inplace.
  eapply hoare_bind; [apply hoare_load|]. intros d _.
  eapply hoare_bind; [apply hoare_lift|]. intros d' _.
  now apply hoare_store.
Qed.

Lemma hoare_set_columns r names :
  length h0 <= r -> hoare h0 (set_columns r names) (fun _ => True).
Proof.
  intros Hr. unfold set_columns. eapply hoare_bind; [apply hoare_load|].
  intros d _. destruct (length names =? length (columns d))%nat;
    [now apply hoare_store | apply hoare_raise].
Qed.

Lemma hoare_tail_windows df_list derivative_order k :
  hoare h0 (tail_windows df_list derivative_order k) (fun _ => True).
Proof.
  induction df_list as [|df rest IH]; simpl.
  - now apply hoare_ret.
  - eapply hoare_bind; [apply hoare_load|]. intros d _.
    eapply hoare_bind; [apply hoare_lift|]. intros w _.
    eapply hoare_bind; [apply IH|]. intros ws _.
    now apply hoare_ret.
Qed.

End Footprint.

Create HintDb footprint.
#[local] Hint Resolve hoare_lift hoare_load hoare_copy hoare_alloc
  hoare_setitem_series hoare_setitem_scalar hoare_setitem_array
  hoare_reset_index_inplace hoare_set_columns hoare_tail_windows
  hoare_ret : footprint.

(** One step of a straight-line body: the first action by a rule of the
    database, its result named for the rest. *)
Ltac footprint_step :=
  eapply hoare_bind; [solve [eauto with footprint] | intros ? ?].

Section FootprintOfTheModule.
Context `{NumericServices}.

Lemma hoare_naive_trend h df column_value :
  hoare h (naive_trend df column_value) (fun o => length h <= o).
Proof.
  unfold naive_trend. do 5 footprint_step.
  eapply hoare_bind; [apply hoare_copy|]. intros odf Hodf.
  do 6 footprint_step. now apply hoare_ret.
Qed.

Lemma hoare_spline_trend h df column_value function_order derivative_order s :
  hoare h (spline_trend df column_value function_order derivative_order s)
        (fun o => length h <= o).
Proof.
  unfold spline_trend. do 4 footprint_step.
  eapply hoare_bind; [apply hoare_copy|]. intros odf Hodf.
  do 7 footprint_step. now apply hoare_ret.
Qed.

Lemma hoare_sgolay_trend h df column_value function_order derivative_order w :
  hoare h (sgolay_trend df column_value function_order derivative_order w)
        (fun o => length h <= o).
Proof.
  unfold sgolay_trend. do 2 footprint_step.
  eapply hoare_bind; [apply hoare_copy|]. intros odf Hodf.
  do 7 footprint_step. now apply hoare_ret.
Qed.

Lemma hoare_trending h df_list column_id derivative_order max_or_avg k :
  hoare h (trending df_list column_id derivative_order max_or_avg k)
        (fun o => length h <= o).
Proof.
  unfold trending. do 3 footprint_step.
  eapply hoare_bind; [apply hoare_alloc|]. intros odf Hodf.
  do 2 footprint_step. now apply hoare_ret.
Qed.

End FootprintOfTheModule.

(** ** The inputs are left unchanged *)

Section FrameEffect.
Context `{NumericServices}.

Lemma hoare_unchanged (h : heap) (m : M nat) :
  hoare h m (fun o => length h <= o) -> unchanged h (m h).
Proof.
  intros Hm. destruct (Hm h) as [[t Hext] Hfresh]; [reflexivity|]. split.
  - rewrite Hext. apply take_app_length.
  - destruct (snd (m h)); [now apply Hfresh | trivial].
Qed.

(** C9.  Whatever the heap and the arguments, after a call of
    [naive_trend], [spline_trend], [sgolay_trend] or [trending], whether it
    returns or raises, every DataFrame that existed before the call (the
    argument tables among them) is what it was, and a table that is
    returned is a new object. *)
Theorem inputs_left_unchanged :
  forall (h : heap) (df : nat) (df_list : list nat)
         (column_value column_id max_or_avg : string)
         (function_order derivative_order window_length k : Z) (s : Q),
    unchanged h (naive_trend df column_value h) /\
    unchanged h (spline_trend df column_value function_order
                              derivative_order s h) /\
    unchanged h (sgolay_trend df column_value function_order
                              derivative_order window_length h) /\
    unchanged h (trending df_list column_id derivative_order max_or_avg k h).
Proof.
  intros. split; [|split; [|split]]; apply hoare_unchanged.
  - apply hoare_naive_trend.
  - apply hoare_spline_trend.
  - apply hoare_sgolay_trend.
  - apply hoare_trending.
Qed.

End FrameEffect.

(** ** Running the trend estimators *)

Ltac run_in H :=
  cbv beta iota delta [mbind M_bind mret M_ret load lift copy alloc raise] in H.

Ltac run_goal :=
  cbv beta iota delta [mbind M_bind mret M_ret load lift copy alloc raise].

Section NaiveRun.
Context `{NumericServices}.

Lemma naive_trend_ok h df column_value h' o :
  naive_trend df column_value h = (h', Ok o) ->
  exists d y d1 y_y d2 m,
    h !! df = Some d /\ getitem d column_value = Ok y /\
    series_sub (shift 1 y) y = Ok d1 /\
    series_sub y y = Ok y_y /\ series_sub_scalar y_y 2 = Ok d2 /\
    mean_axis1 (concat_axis1 (index_name d) (index d)
                  [("plus_1_diff", d1); ("min_1_diff", d2)]) = Ok m /\
    o = length h /\ h' = h ++ [naive_frame d m].
Proof.
  unfold naive_trend. intros Hrun. run_in Hrun.
  destruct (h !! df) as [d|] eqn:Hd; [|discriminate].
  destruct (getitem d column_value) as [y|] eqn:Hy; [|discriminate].
  destruct (series_sub (shift 1 y) y) as [d1|] eqn:Hd1; [|discriminate].
  destruct (series_sub y y) as [y_y|] eqn:Hyy; [|discriminate].
  destruct (series_sub_scalar y_y 2) as [d2|] eqn:Hd2; [|discriminate].
  unfold getitem_list, getitem, concat_axis1 in Hrun. simpl in Hrun.
  destruct (mean_axis1 _) as [m|] eqn:Hm in Hrun; [|discriminate].
  rewrite setitem_series_fresh in Hrun.
  do 3 rewrite setitem_scalar_fresh in Hrun.
  inversion Hrun; subst.
  exists d, y, d1, y_y, d2, m. repeat split; auto.
Qed.

End NaiveRun.

Section EstimatorRuns.
Context `{NumericServices}.

Lemma reset_index_nrows d rdf : reset_index d = Ok rdf -> nrows rdf = nrows d.
Proof.
  unfold reset_index. destruct (has_column d _); [discriminate|].
  intros [= <-]. unfold nrows. simpl. apply length_RangeIndex.
Qed.

Lemma getitem_length d name y :
  wf_frame d -> getitem d name = Ok y -> length y = nrows d.
Proof.
  unfold getitem. intros Hwf Hy.
  destruct (col_lookup name (columns d)) as [c|] eqn:Hc; [|discriminate].
  inversion Hy; subst. eapply col_lookup_length; eauto.
Qed.

Lemma spline_trend_ok h df column_value function_order derivative_order s h' o :
  spline_trend df column_value function_order derivative_order s h = (h', Ok o) ->
  exists d y spl sm dv,
    h !! df = Some d /\ getitem d column_value = Ok y /\
    UnivariateSpline (positions (nrows d)) y function_order s = Ok spl /\
    spline_call spl (positions (nrows d)) 0 = Ok sm /\
    spline_call spl (positions (nrows d)) derivative_order = Ok dv /\
    o = length h /\
    h' = h ++ [estimate_frame "spline" d sm dv function_order derivative_order].
Proof.
  unfold spline_trend. intros Hrun. run_in Hrun.
  destruct (h !! df) as [d|] eqn:Hd; [|discriminate].
  destruct (reset_index d) as [rdf|] eqn:Hrdf; [|discriminate].
  rewrite (reset_index_nrows _ _ Hrdf) in Hrun.
  destruct (getitem d column_value) as [y|] eqn:Hy; [|discriminate].
  destruct (UnivariateSpline _ y function_order s) as [spl|] eqn:Hspl;
    [|discriminate].
  destruct (spline_call spl _ 0) as [sm|] eqn:Hsm; [|discriminate].
  rewrite setitem_array_fresh in Hrun.
  2:{ rewrite length_map, (spline_call_shape _ _ _ _ Hsm).
      apply length_positions. }
  run_in Hrun.
  destruct (spline_call spl _ derivative_order) as [dv|] eqn:Hdv;
    [|discriminate].
  rewrite setitem_array_fresh in Hrun.
  2:{ rewrite length_map, (spline_call_shape _ _ _ _ Hdv).
      apply length_positions. }
  do 3 rewrite setitem_scalar_fresh in Hrun.
  inversion Hrun; subst.
  exists d, y, spl, sm, dv. repeat split; auto.
Qed.

Lemma sgolay_trend_ok h df column_value function_order derivative_order w d h' o :
  h !! df = Some d -> wf_frame d ->
  sgolay_trend df column_value function_order derivative_order w h = (h', Ok o) ->
  exists y sm dv,
    getitem d column_value = Ok y /\
    savgol_filter y w function_order 0 = Ok sm /\
    savgol_filter y w function_order derivative_order = Ok dv /\
    o = length h /\
    h' = h ++ [estimate_frame "sgolay" d sm dv function_order derivative_order].
Proof.
  unfold sgolay_trend. intros Hd Hwf Hrun. run_in Hrun. rewrite Hd in Hrun.
  destruct (getitem d column_value) as [y|] eqn:Hy; [|discriminate].
  destruct (savgol_filter y w function_order 0) as [sm|] eqn:Hsm;
    [|discriminate].
  rewrite setitem_array_fresh in Hrun.
  2:{ rewrite length_map, (savgol_filter_shape _ _ _ _ _ Hsm).
      exact (getitem_length _ _ _ Hwf Hy). }
  run_in Hrun.
  destruct (savgol_filter y w function_order derivative_order) as [dv|] eqn:Hdv;
    [|discriminate].
  rewrite setitem_array_fresh in Hrun.
  2:{ rewrite length_map, (savgol_filter_shape _ _ _ _ _ Hdv).
      exact (getitem_length _ _ _ Hwf Hy). }
  do 3 rewrite setitem_scalar_fresh in Hrun.
  inversion Hrun; subst.
  exists y, sm, dv. repeat split; auto.
Qed.

(** The filter's refusal is the estimator's. *)
Lemma sgolay_trend_raise h df column_value function_order derivative_order w d y e :
  h !! df = Some d -> getitem d column_value = Ok y ->
  savgol_filter y w function_order 0 = Raise e ->
  sgolay_trend df column_value function_order derivative_order w h
  = (h ++ [d], Raise e).
Proof.
  intros Hd Hy He. unfold sgolay_trend. run_goal.
  now rewrite Hd, Hy, He.
Qed.

End EstimatorRuns.

Section EstimatorProperties.
Context `{NumericServices}.

Lemma mean_axis1_length df m : mean_axis1 df = Ok m -> length m = nrows df.
Proof.
  unfold mean_axis1. intros Hm. apply traverse_length in Hm.
  now rewrite length_seq in Hm.
Qed.

Lemma same_rows_naive_frame d m :
  wf_frame d -> length m = nrows d -> same_rows d (naive_frame d m).
Proof.
  intros Hwf Hm. unfold same_rows, naive_frame, wf_frame, nrows. simpl.
  repeat split.
  - repeat (apply col_set_lengths; [try apply repeat_length; auto|]).
    exact Hwf.
  - intros c Hc. unfold written_columns in Hc. simpl in Hc.
    rewrite !col_lookup_set_ne; auto; intros ->; tauto.
Qed.

Lemma same_rows_estimate_frame method d sm dv fo do :
  wf_frame d -> length sm = nrows d -> length dv = nrows d ->
  same_rows d (estimate_frame method d sm dv fo do).
Proof.
  intros Hwf Hsm Hdv. unfold same_rows, estimate_frame, wf_frame, nrows. simpl.
  repeat split.
  - repeat (apply col_set_lengths;
              [try apply repeat_length; try (rewrite length_map; auto)|]).
    exact Hwf.
  - intros c Hc. unfold written_columns in Hc. simpl in Hc.
    rewrite !col_lookup_set_ne; auto; intros ->; tauto.
Qed.

Lemma tagged_estimate_frame method d sm dv fo do :
  let odf := estimate_frame method d sm dv fo do in
  tagged_with odf "function_order" (of_int fo) /\
  tagged_with odf "derivative_order" (of_int do) /\
  tagged_with odf "derivative_method" (Str method).
Proof.
  unfold tagged_with, estimate_frame, getitem, nrows. simpl. repeat split.
  - rewrite !col_lookup_set_ne by discriminate.
    now rewrite col_lookup_set_eq.
  - now rewrite col_lookup_set_eq.
  - rewrite !col_lookup_set_ne by discriminate.
    now rewrite col_lookup_set_eq.
Qed.

(** C1.  Called on a table [d], each of [naive_trend], [spline_trend] and
    [sgolay_trend], when it returns, returns a table with the index of [d]
    (the same labels in the same order, hence as many rows), whose columns
    all have that length and whose columns other than the written ones are
    those of [d]: no row is added, removed or moved. *)
Theorem trend_keeps_rows :
  forall (h : heap) (df : nat) (column_value : string) (d : DataFrame),
    h !! df = Some d -> wf_frame d ->
    (forall h' o,
        naive_trend df column_value h = (h', Ok o) ->
        exists odf, h' !! o = Some odf /\ same_rows d odf) /\
    (forall function_order derivative_order s h' o,
        spline_trend df column_value function_order derivative_order s h
        = (h', Ok o) ->
        exists odf, h' !! o = Some odf /\ same_rows d odf) /\
    (forall function_order derivative_order window_length h' o,
        sgolay_trend df column_value function_order derivative_order
                     window_length h = (h', Ok o) ->
        exists odf, h' !! o = Some odf /\ same_rows d odf).
Proof.
  intros h df column_value d Hd Hwf. split; [|split].
  - intros h' o Hrun.
    destruct (naive_trend_ok _ _ _ _ _ Hrun)
      as (d' & y & d1 & y_y & d2 & m & Hd' & _ & _ & _ & _ & Hm & -> & ->).
    assert (d' = d) as -> by congruence.
    eexists. split; [apply lookup_fresh|].
    apply same_rows_naive_frame; [exact Hwf|].
    now apply mean_axis1_length in Hm.
  - intros fo do s h' o Hrun.
    destruct (spline_trend_ok _ _ _ _ _ _ _ _ Hrun)
      as (d' & y & spl & sm & dv & Hd' & _ & _ & Hsm & Hdv & -> & ->).
    assert (d' = d) as -> by congruence.
    eexists. split; [apply lookup_fresh|].
    apply same_rows_estimate_frame; [exact Hwf| |].
    + rewrite (spline_call_shape _ _ _ _ Hsm). apply length_positions.
    + rewrite (spline_call_shape _ _ _ _ Hdv). apply length_positions.
  - intros fo do w h' o Hrun.
    destruct (sgolay_trend_ok _ _ _ _ _ _ _ _ _ Hd Hwf Hrun)
      as (y & sm & dv & Hy & Hsm & Hdv & -> & ->).
    eexists. split; [apply lookup_fresh|].
    apply same_rows_estimate_frame; [exact Hwf| |].
    + rewrite (savgol_filter_shape _ _ _ _ _ Hsm).
      exact (getitem_length _ _ _ Hwf Hy).
    + rewrite (savgol_filter_shape _ _ _ _ _ Hdv).
      exact (getitem_length _ _ _ Hwf Hy).
Qed.

(** C7.  When [spline_trend] or [sgolay_trend] returns, every row of the
    table it returns carries the [function_order] and the
    [derivative_order] it was called with, and the method ['spline'] or
    ['sgolay']. *)
Theorem estimators_tag_every_row :
  forall (h : heap) (df : nat) (column_value : string) (d : DataFrame)
         (function_order derivative_order : Z),
    h !! df = Some d -> wf_frame d ->
    (forall s h' o,
        spline_trend df column_value function_order derivative_order s h
        = (h', Ok o) ->
        exists odf, h' !! o = Some odf /\
          tagged_with odf "function_order" (of_int function_order) /\
          tagged_with odf "derivative_order" (of_int derivative_order) /\
          tagged_with odf "derivative_method" (Str "spline")) /\
    (forall window_length h' o,
        sgolay_trend df column_value function_order derivative_order
                     window_length h = (h', Ok o) ->
        exists odf, h' !! o = Some odf /\
          tagged_with odf "function_order" (of_int function_order) /\
          tagged_with odf "derivative_order" (of_int derivative_order) /\
          tagged_with odf "derivative_method" (Str "sgolay")).
Proof.
  intros h df column_value d fo do Hd Hwf. split.
  - intros s h' o Hrun.
    destruct (spline_trend_ok _ _ _ _ _ _ _ _ Hrun)
      as (d' & y & spl & sm & dv & _ & _ & _ & _ & _ & -> & ->).
    eexists. split; [apply lookup_fresh|]. apply tagged_estimate_frame.
  - intros w h' o Hrun.
    destruct (sgolay_trend_ok _ _ _ _ _ _ _ _ _ Hd Hwf Hrun)
      as (y & sm & dv & _ & _ & _ & -> & ->).
    eexists. split; [apply lookup_fresh|]. apply tagged_estimate_frame.
Qed.

(** C6.  With a filter that rejects a window longer than its data, a table
    with fewer rows than [window_length] makes [sgolay_trend] raise: no
    table is returned, and where the column exists the exception is the one
    the filter raised on the whole column with the window as given. *)
Theorem sgolay_trend_rejects_long_window :
  rejects_long_window ->
  forall (h : heap) (df : nat) (column_value : string) (d : DataFrame)
         (function_order derivative_order window_length : Z),
    h !! df = Some d -> wf_frame d ->
    (Z.of_nat (nrows d) < window_length)%Z ->
    exists e,
      snd (sgolay_trend df column_value function_order derivative_order
                        window_length h) = Raise e /\
      forall y, getitem d column_value = Ok y ->
        savgol_filter y window_length function_order 0 = Raise e.
Proof.
  intros Hreject h df column_value d fo do w Hd Hwf Hshort.
  destruct (getitem d column_value) as [y|e] eqn:Hy.
  - destruct (Hreject y w fo 0%Z) as [e He].
    { now rewrite (getitem_length _ _ _ Hwf Hy). }
    exists e. split.
    + now rewrite (sgolay_trend_raise _ _ _ _ _ _ _ _ _ Hd Hy He).
    + now intros y' [= <-].
  - exists e. split; [|discriminate].
    unfold sgolay_trend. run_goal. now rewrite Hd, Hy.
Qed.

End EstimatorProperties.

Lemma wf_constant_series : wf_frame constant_series.
Proof. repeat constructor. Qed.

Lemma wf_short_series : wf_frame short_series.
Proof. repeat constructor. Qed.

Lemma trend_keeps_rows_witness :
  (exists odf, fst (naive_trend 0 "value" [short_series]) !! 1 = Some odf /\
               same_rows short_series odf) /\
  (exists odf,
      fst (spline_trend (H := small_services) 0 "value" 3 1 3 [constant_series])
        !! 1 = Some odf /\ same_rows constant_series odf) /\
  (exists odf,
      fst (sgolay_trend (H := small_services) 0 "value" 0 1 1 [short_series])
        !! 1 = Some odf /\ same_rows short_series odf).
Proof.
  split; [|split].
  - destruct (trend_keeps_rows (H := small_services) [short_series] 0 "value"
                short_series eq_refl wf_short_series) as [Hnaive _].
    exact (Hnaive _ 1 eq_refl).
  - destruct (trend_keeps_rows (H := small_services) [constant_series] 0
                "value" constant_series eq_refl wf_constant_series)
      as (_ & Hspline & _).
    exact (Hspline 3%Z 1%Z 3%Q _ 1 eq_refl).
  - destruct (trend_keeps_rows (H := small_services) [short_series] 0 "value"
                short_series eq_refl wf_short_series) as (_ & _ & Hsgolay).
    exact (Hsgolay 0%Z 1%Z 1%Z _ 1 eq_refl).
Defined.

Lemma estimators_tag_every_row_witness :
  (exists odf,
      fst (spline_trend (H := small_services) 0 "value" 3 1 3 [constant_series])
        !! 1 = Some odf /\
      tagged_with odf "function_order" (of_int 3) /\
      tagged_with odf "derivative_order" (of_int 1) /\
      tagged_with odf "derivative_method" (Str "spline")) /\
  (exists odf,
      fst (sgolay_trend (H := small_services) 0 "value" 0 1 1 [short_series])
        !! 1 = Some odf /\
      tagged_with odf "function_order" (of_int 0) /\
      tagged_with odf "derivative_order" (of_int 1) /\
      tagged_with odf "derivative_method" (Str "sgolay")).
Proof.
  split.
  - destruct (estimators_tag_every_row (H := small_services) [constant_series]
                0 "value" constant_series 3 1 eq_refl wf_constant_series)
      as [Hspline _].
    exact (Hspline 3%Q _ 1 eq_refl).
  - destruct (estimators_tag_every_row (H := small_services) [short_series]
                0 "value" short_series 0 1 eq_refl wf_short_series)
      as [_ Hsgolay].
    exact (Hsgolay 1%Z _ 1 eq_refl).
Defined.

Lemma sgolay_trend_rejects_long_window_witness :
  exists e,
    snd (sgolay_trend (H := small_services) 0 "value" 3 1 15 [short_series])
    = Raise e /\
    forall y, getitem short_series "value" = Ok y ->
      pointwise_savgol y 15 3 0 = Raise e.
Proof.
  apply (sgolay_trend_rejects_long_window (H := small_services)).
  - intros y w p d Hlong. exists ValueError. simpl. unfold pointwise_savgol.
    destruct (Z.ltb_spec (Z.of_nat (length y)) w); [reflexivity | lia].
  - reflexivity.
  - exact wf_short_series.
  - vm_compute. reflexivity.
Defined.

(** ** What naive_trend computes *)

Lemma traverse_ext_in {A B} (f g : A -> result B) l :
  (forall x, In x l -> f x = g x) -> traverse f l = traverse g l.
Proof.
  induction l as [|x rest IH]; simpl; intros Hext; [reflexivity|].
  rewrite (Hext x) by now left.
  rewrite IH by (intros; apply Hext; now right). reflexivity.
Qed.

Lemma traverse_rows {B} (g : cell -> cell -> result B) a b s :
  length a = length b ->
  traverse (fun i => g (nth (i - s) a NaN) (nth (i - s) b NaN))
           (seq s (length a))
  = traverse (fun ab => g (fst ab) (snd ab)) (combine a b).
Proof.
  revert b s. induction a as [|x a IH]; intros [|y b] s Hlen;
    try discriminate; [reflexivity|].
  simpl. rewrite Nat.sub_diag. simpl.
  rewrite <- (IH b (S s)) by (simpl in Hlen; lia).
  rewrite (traverse_ext_in _
             (fun i => g (nth (i - S s) a NaN) (nth (i - S s) b NaN))).
  - reflexivity.
  - intros i Hi. apply in_seq in Hi.
    replace (i - s) with (S (i - S s)) by lia. reflexivity.
Qed.

Lemma mean_axis1_two name idx n1 n2 a b :
  length a = length idx -> length b = length idx ->
  mean_axis1 (concat_axis1 name idx [(n1, a); (n2, b)])
  = traverse (fun ab => reduce_mean [fst ab; snd ab]) (combine a b).
Proof.
  intros Ha Hb. unfold mean_axis1, row_at, concat_axis1, nrows. simpl.
  rewrite <- Ha.
  rewrite <- (traverse_rows (fun u v => reduce_mean [u; v]) a b 0)
    by congruence.
  apply traverse_ext_in. intros i _. now rewrite Nat.sub_0_r.
Qed.

Lemma shift_1_cons x l : shift 1 (x :: l) = NaN :: firstn (length l) (x :: l).
Proof.
  unfold shift. simpl. now rewrite Nat.sub_0_r.
Qed.

Lemma series_sub_lagged prev qs :
  series_sub (of_float prev :: firstn (pred (length qs)) (map Num qs))
             (map Num qs)
  = Ok (lagged_diffs prev qs).
Proof.
  unfold series_sub. revert prev.
  induction qs as [|q rest IH]; intros prev; [reflexivity|].
  destruct rest as [|q' rest'].
  - destruct prev; reflexivity.
  - specialize (IH (Some q)).
    change (firstn (pred (length (q :: q' :: rest'))) (map Num (q :: q' :: rest')))
      with (Num q :: firstn (pred (length (q' :: rest'))) (map Num (q' :: rest'))).
    change (of_float (Some q)) with (Num q) in IH.
    cbn [map combine traverse fst snd] in *. rewrite IH.
    destruct prev; reflexivity.
Qed.

Lemma series_sub_self qs :
  series_sub (map Num qs) (map Num qs) = Ok (map (fun q => Num (q - q)%Q) qs).
Proof.
  unfold series_sub. induction qs as [|q rest IH]; [reflexivity|].
  cbn [map combine traverse fst snd cell_sub]. now rewrite IH.
Qed.

Lemma series_sub_two qs :
  series_sub_scalar (map (fun q => Num (q - q)%Q) qs) 2
  = Ok (map (fun q => Num (q - q - 2)%Q) qs).
Proof.
  unfold series_sub_scalar. induction qs as [|q rest IH]; [reflexivity|].
  cbn [map traverse cell_sub]. now rewrite IH.
Qed.

Lemma length_lagged_diffs prev qs : length (lagged_diffs prev qs) = length qs.
Proof. revert prev. induction qs; intros; simpl; auto. Qed.

Lemma mean_of_differences prev qs :
  traverse (fun ab => reduce_mean [fst ab; snd ab])
           (combine (lagged_diffs prev qs) (map (fun q => Num (q - q - 2)%Q) qs))
  = Ok (naive_rows prev qs).
Proof.
  revert prev. induction qs as [|q rest IH]; intros prev; [reflexivity|].
  cbn [lagged_diffs map combine traverse fst snd naive_rows].
  rewrite IH. destruct prev; reflexivity.
Qed.

(** On a numeric column [naive_trend] returns, and its [derivative_value]
    is [naive_rows]. *)
Lemma naive_trend_numeric (h : heap) df column_value d qs :
  h !! df = Some d -> wf_frame d ->
  getitem d column_value = Ok (map Num qs) ->
  naive_trend df column_value h
  = (h ++ [naive_frame d (naive_rows None qs)], Ok (length h)).
Proof.
  intros Hd Hwf Hy. pose proof (getitem_length _ _ _ Hwf Hy) as Hlen.
  rewrite length_map in Hlen.
  unfold naive_trend. run_goal. rewrite Hd, Hy.
  assert (Hlag : series_sub (shift 1 (map Num qs)) (map Num qs)
                 = Ok (lagged_diffs None qs)).
  { destruct qs as [|q rest]; [reflexivity|].
    change (map Num (q :: rest)) with (Num q :: map Num rest) at 1.
    rewrite shift_1_cons. rewrite length_map.
    exact (series_sub_lagged None (q :: rest)). }
  rewrite Hlag, series_sub_self, series_sub_two.
  unfold getitem_list, getitem. cbn [concat_axis1 columns col_lookup traverse
    String.eqb Ascii.eqb Bool.eqb andb with_columns index index_name].
  change (with_columns (concat_axis1 ?n ?i _) ?cols)
    with (concat_axis1 n i cols).
  rewrite mean_axis1_two, mean_of_differences.
  - rewrite setitem_series_fresh. do 3 rewrite setitem_scalar_fresh.
    reflexivity.
  - rewrite length_lagged_diffs. exact Hlen.
  - rewrite length_map. exact Hlen.
Qed.

(** The mean [naive_trend] takes: half of the lagged difference less two,
    and at the first row the constant minus two. *)
Lemma naive_row_value p q :
  (naive_row (Some p) q == (p - q - 2) / 2)%Q /\ (naive_row None q == -2)%Q.
Proof.
  unfold naive_row, qsum. simpl. split; field.
Qed.

(** C2 (the program departs from it).  On the series 1, 2, 4 the centered
    first difference is 1, 3/2, 2: at the interior row the average of the
    forward difference 2 and the backward difference 1.  [naive_trend]
    returns -2, -3/2, -2 there: its second difference is [y - y - 2],
    the constant -2, where the docstring has the step to the other
    neighbour. *)
Theorem naive_trend_is_not_centered :
  exists odf,
    naive_trend 0 "value" [rising_series] = ([rising_series; odf], Ok 1) /\
    getitem odf "derivative_value" = Ok [Num (-2); Num (-3 # 2); Num (-4 # 2)] /\
    map (centered_difference [1; 2; 4]%Q) [0; 1; 2]%nat
    = [Some 1%Q; Some (3 # 2); Some 2%Q] /\
    ~ (-3 # 2 == 3 # 2)%Q.
Proof.
  exists (naive_frame rising_series [Num (-2); Num (-3 # 2); Num (-4 # 2)]).
  split; [vm_compute; reflexivity|]. split; [reflexivity|].
  split; [reflexivity|]. discriminate.
Qed.

(** ** Group keys *)

Lemma cell_eqb_sym a b : cell_eqb a b = cell_eqb b a.
Proof.
  destruct a, b; simpl; auto using Qeq_bool_comm, String.eqb_sym.
Qed.

Lemma cell_eqb_trans a b c :
  cell_eqb a b = true -> cell_eqb b c = true -> cell_eqb a c = true.
Proof.
  destruct a, b, c; simpl; try discriminate.
  - apply Qeq_bool_trans.
  - intros Hab Hbc. apply String.eqb_eq in Hab, Hbc. subst.
    apply String.eqb_refl.
Qed.

Lemma cell_eqb_refl a : isna a = false -> cell_eqb a a = true.
Proof.
  destruct a; simpl; try discriminate; intros _.
  - apply Qeq_bool_refl.
  - apply String.eqb_refl.
Qed.

Lemma unique_In x l : In x (unique l) -> In x l.
Proof.
  revert x. induction l as [|y rest IH]; simpl; intros x; [tauto|].
  intros [->|Hin]; [now left|]. right. apply IH.
  apply filter_In in Hin. tauto.
Qed.

Lemma unique_covers c l :
  In c l -> isna c = false -> exists x, In x (unique l) /\ same_key c x.
Proof.
  unfold same_key. induction l as [|y rest IH]; simpl; [tauto|].
  intros [->|Hin] Hc.
  - exists c. split; [now left | now apply cell_eqb_refl].
  - destruct (IH Hin Hc) as (x & Hx & Hcx).
    destruct (cell_eqb y x) eqn:Hyx.
    + exists y. split; [now left|].
      apply cell_eqb_trans with x; [exact Hcx|]. now rewrite cell_eqb_sym.
    + exists x. split; [|exact Hcx]. right.
      apply filter_In. split; [exact Hx|]. now rewrite Hyx.
Qed.

Lemma NoDupA_filter (f : cell -> bool) l :
  NoDupA same_key l -> NoDupA same_key (List.filter f l).
Proof.
  induction 1 as [|x l Hx Hl IH]; simpl; [constructor|].
  destruct (f x); [|exact IH]. constructor; [|exact IH].
  intros Hin. apply Hx. apply InA_alt in Hin as (y & Hxy & Hy).
  apply InA_alt. exists y. split; [exact Hxy|].
  apply filter_In in Hy. tauto.
Qed.

Lemma unique_NoDupA l : NoDupA same_key (unique l).
Proof.
  induction l as [|x rest IH]; simpl; constructor.
  - intros Hin. apply InA_alt in Hin as (y & Hxy & Hy).
    apply filter_In in Hy as [_ Hy]. unfold same_key in Hxy.
    now rewrite Hxy in Hy.
  - now apply NoDupA_filter.
Qed.

Lemma insert_sorted_In x y l : In y (insert_sorted x l) <-> y = x \/ In y l.
Proof.
  induction l as [|z rest IH]; simpl.
  - intuition.
  - destruct (cell_leb x z); simpl; [intuition|]. rewrite IH. intuition.
Qed.

Lemma sort_keys_In y l : In y (sort_keys l) <-> In y l.
Proof.
  induction l as [|x rest IH]; simpl; [tauto|].
  rewrite insert_sorted_In, IH. intuition.
Qed.

Lemma InA_same_key x l : InA same_key x l <-> exists y, In y l /\ same_key x y.
Proof. rewrite InA_alt. firstorder. Qed.

Lemma insert_sorted_NoDupA x l :
  NoDupA same_key (x :: l) -> NoDupA same_key (insert_sorted x l).
Proof.
  induction l as [|z rest IH]; simpl; intros Hnd; [exact Hnd|].
  destruct (cell_leb x z); [exact Hnd|].
  inversion Hnd as [|? ? Hx Hzrest]; subst.
  inversion Hzrest as [|? ? Hz Hrest]; subst.
  constructor.
  - rewrite InA_same_key. intros (y & Hy & Hzy).
    apply insert_sorted_In in Hy as [->|Hy].
    + apply Hx. left. unfold same_key in *. now rewrite cell_eqb_sym.
    + apply Hz. apply InA_same_key. eauto.
  - apply IH. constructor; [|exact Hrest].
    intros Hin. apply Hx. now right.
Qed.

Lemma sort_keys_NoDupA l : NoDupA same_key l -> NoDupA same_key (sort_keys l).
Proof.
  induction 1 as [|x l Hx Hl IH]; simpl; [constructor|].
  apply insert_sorted_NoDupA. constructor; [|exact IH].
  rewrite InA_same_key in *. intros (y & Hy & Hxy). apply Hx.
  exists y. split; [|exact Hxy]. now apply sort_keys_In.
Qed.

(** The group keys are the present keys, each once. *)
Lemma group_keys_In x keys :
  In x (group_keys keys) -> In x keys /\ isna x = false.
Proof.
  unfold group_keys. rewrite sort_keys_In. intros Hin.
  apply unique_In, filter_In in Hin as [Hin Hna].
  split; [exact Hin|]. now destruct (isna x).
Qed.

Lemma group_keys_covers c keys :
  In c keys -> isna c = false ->
  exists x, In x (group_keys keys) /\ same_key c x.
Proof.
  intros Hin Hna. unfold group_keys.
  destruct (unique_covers c (List.filter (fun c => negb (isna c)) keys))
    as (x & Hx & Hcx); [|exact Hna|].
  - apply filter_In. split; [exact Hin|]. now rewrite Hna.
  - exists x. split; [now apply sort_keys_In | exact Hcx].
Qed.

Lemma group_keys_NoDupA keys : NoDupA same_key (group_keys keys).
Proof. apply sort_keys_NoDupA, unique_NoDupA. Qed.

(** ** Tail windows and their concatenation *)

Lemma mask_select_In {A} (x : A) mask l : In x (mask_select mask l) -> In x l.
Proof.
  revert l. induction mask as [|b mask IH]; intros [|y l]; simpl; try tauto.
  destruct b; simpl; intros Hin; [destruct Hin as [->|Hin]|]; auto.
Qed.

Lemma skipn_In {A} (x : A) n l : In x (skipn n l) -> In x l.
Proof.
  revert l. induction n as [|n IH]; intros [|y l]; simpl; auto.
Qed.

Lemma mask_select_map {A} (f : A -> bool) l :
  mask_select (map f l) l = List.filter f l.
Proof.
  induction l as [|x l IH]; simpl; [reflexivity|].
  destruct (f x); now rewrite IH.
Qed.

Lemma mask_select_length {A B} mask (l : list A) (l' : list B) :
  length l = length l' ->
  length (mask_select mask l) = length (mask_select mask l').
Proof.
  revert l l'. induction mask as [|b mask IH]; intros [|x l] [|y l'];
    simpl; try discriminate; auto.
  intros [= Hlen]. destruct b; simpl; auto.
Qed.

Lemma col_lookup_map_cols (g : list cell -> list cell) name cols :
  col_lookup name (map (fun nc => (fst nc, g (snd nc))) cols)
  = option_map g (col_lookup name cols).
Proof.
  induction cols as [|[n c] rest IH]; simpl; [reflexivity|].
  destruct (String.eqb n name); [reflexivity | exact IH].
Qed.

Lemma col_lookup_In name cols c :
  col_lookup name cols = Some c -> In name (map fst cols).
Proof.
  induction cols as [|[n v] rest IH]; simpl; [discriminate|].
  destruct (String.eqb_spec n name); [now left | right; auto].
Qed.

Lemma col_lookup_named (F : string -> list cell) name names :
  In name names ->
  col_lookup name (map (fun n => (n, F n)) names) = Some (F name).
Proof.
  induction names as [|n rest IH]; simpl; [tauto|].
  destruct (String.eqb_spec n name) as [->|Hne]; [reflexivity|].
  intros [Heq|Hin]; [contradiction | auto].
Qed.

Lemma add_names_In n names acc :
  In n (add_names acc names) <-> In n acc \/ In n names.
Proof.
  revert acc. induction names as [|m rest IH]; intros acc; simpl; [tauto|].
  rewrite IH. destruct (existsb (String.eqb m) acc) eqn:Hex.
  - apply existsb_exists in Hex as (m' & Hm' & Heq).
    apply String.eqb_eq in Heq. subst m'. intuition (subst; auto).
  - rewrite in_app_iff. simpl. intuition.
Qed.

Lemma fold_add_names_In n dfs acc :
  In n (fold_left (fun acc df => add_names acc (map fst (columns df))) dfs acc)
  <-> In n acc \/ exists df, In df dfs /\ In n (map fst (columns df)).
Proof.
  revert acc. induction dfs as [|d rest IH]; intros acc; simpl.
  - firstorder.
  - rewrite IH, add_names_In. split.
    + intros [[Hacc|Hd]|(d' & Hd' & Hn')]; eauto 6.
    + intros [Hacc|(d' & [->|Hd'] & Hn')]; eauto 6.
Qed.

Lemma all_names_In n df dfs :
  In df dfs -> In n (map fst (columns df)) -> In n (all_names dfs).
Proof.
  intros Hdf Hn. apply fold_add_names_In. right. eauto.
Qed.

(** ** Running trending *)

Lemma traverse_Forall2 {A B} (f : A -> result B) l out :
  traverse f l = Ok out -> Forall2 (fun x y => f x = Ok y) l out.
Proof.
  revert out. induction l as [|x rest IH]; simpl; intros out Hrun.
  - inversion Hrun. constructor.
  - destruct (f x) as [y|] eqn:Hx; [|discriminate].
    destruct (traverse f rest) as [ys|]; [|discriminate].
    inversion Hrun. constructor; auto.
Qed.

Lemma traverse_total {A B} (f : A -> result B) l :
  (forall x, In x l -> exists y, f x = Ok y) -> exists out, traverse f l = Ok out.
Proof.
  induction l as [|x rest IH]; simpl; intros Hall; [eauto|].
  destruct (Hall x) as [y ->]; [now left|].
  destruct IH as [ys ->]; [intros; apply Hall; now right|]. eauto.
Qed.

Lemma tail_windows_run (h : heap) refs dfs derivative_order k :
  Forall2 (fun r df => h !! r = Some df) refs dfs ->
  tail_windows refs derivative_order k h
  = (h, traverse (tail_window derivative_order k) dfs).
Proof.
  induction 1 as [|r df refs dfs Hr Hrest IH]; [reflexivity|].
  simpl. run_goal. rewrite Hr.
  destruct (tail_window derivative_order k df); [|reflexivity].
  rewrite IH. destruct (traverse _ dfs); reflexivity.
Qed.

Lemma reset_index_inplace_fresh (h : heap) d d' :
  reset_index d = Ok d' ->
  reset_index_inplace (length h) (h ++ [d]) = (h ++ [d'], Ok tt).
Proof.
  intros Hd. unfold reset_index_inplace. rewrite bind_run, load_fresh.
  rewrite bind_run. unfold lift. rewrite Hd. apply store_fresh.
Qed.

Lemma set_columns_fresh (h : heap) d names :
  length names = length (columns d) ->
  set_columns (length h) names (h ++ [d])
  = (h ++ [with_columns d (combine names (map snd (columns d)))], Ok tt).
Proof.
  intros Hlen. unfold set_columns. rewrite bind_run, load_fresh.
  rewrite Hlen, Nat.eqb_refl. apply store_fresh.
Qed.

Section Trending.
Context `{NumericServices}.

Lemma groupby_agg_ok tdf how o :
  groupby_agg tdf "id" "derivative_value" how = Ok o ->
  exists keys vals f scores,
    grouper tdf "id" = Ok keys /\
    getitem tdf "derivative_value" = Ok vals /\
    reduction_of how = Ok f /\
    traverse (fun key => f (group_values key keys vals)) (group_keys keys)
    = Ok scores /\
    o = {| index_name := Some "id"; index := group_keys keys;
           columns := [("derivative_value", scores)] |}.
Proof.
  unfold groupby_agg, mbind, result_bind, mret, result_ret. intros Hrun.
  destruct (grouper tdf "id") as [keys|]; [|discriminate].
  destruct (getitem tdf "derivative_value") as [vals|]; [|discriminate].
  destruct (reduction_of how) as [f|]; [|discriminate].
  destruct (traverse _ (group_keys keys)) as [scores|] eqn:Hs; [|discriminate].
  inversion Hrun. exists keys, vals, f, scores. auto.
Qed.

Lemma groupby_agg_run tdf how keys vals f scores :
  grouper tdf "id" = Ok keys ->
  getitem tdf "derivative_value" = Ok vals ->
  reduction_of how = Ok f ->
  traverse (fun key => f (group_values key keys vals)) (group_keys keys)
  = Ok scores ->
  groupby_agg tdf "id" "derivative_value" how
  = Ok {| index_name := Some "id"; index := group_keys keys;
          columns := [("derivative_value", scores)] |}.
Proof.
  intros Hk Hv Hf Hs.
  unfold groupby_agg, mbind, result_bind, mret, result_ret.
  now rewrite Hk, Hv, Hf, Hs.
Qed.

(** [trending] as one equation: the windows, their concatenation and the
    grouped aggregate are computed without touching the heap, and the
    ranking table is the one new object. *)
Lemma trending_run (h : heap) refs dfs column_id derivative_order max_or_avg k :
  Forall2 (fun r df => h !! r = Some df) refs dfs ->
  trending refs column_id derivative_order max_or_avg k h
  = match traverse (tail_window derivative_order k) dfs with
    | Raise e => (h, Raise e)
    | Ok ws =>
        match pd_concat ws with
        | Raise e => (h, Raise e)
        | Ok tdf =>
            match groupby_agg tdf "id" "derivative_value"
                    (agg_name max_or_avg) with
            | Raise e => (h, Raise e)
            | Ok o =>
                match columns o with
                | [(_, scores)] =>
                    (h ++ [ranking_table (index o) scores], Ok (length h))
                | _ => (h ++ [o], Raise ValueError)
                end
            end
        end
    end.
Proof.
  intros Hrefs. unfold trending.
  rewrite bind_run, (tail_windows_run _ _ _ _ _ Hrefs).
  destruct (traverse _ dfs) as [ws|]; [|reflexivity].
  run_goal. destruct (pd_concat ws) as [tdf|]; [|reflexivity].
  fold (agg_name max_or_avg).
  destruct (groupby_agg tdf "id" "derivative_value" (agg_name max_or_avg))
    as [o|] eqn:Ho; [|reflexivity].
  destruct (groupby_agg_ok _ _ _ Ho)
    as (keys & vals & f & scores & _ & _ & _ & Hs & ->).
  cbn [columns index].
  rewrite (reset_index_inplace_fresh _ _
             {| index_name := None;
                index := RangeIndex (length (group_keys keys));
                columns := [("id", group_keys keys);
                            ("derivative_value", scores)] |})
    by reflexivity.
  rewrite set_columns_fresh by reflexivity. reflexivity.
Qed.

End Trending.

(** ** trending on trend tables *)

Lemma has_column_lookup df n :
  has_column df n = true -> exists c, col_lookup n (columns df) = Some c.
Proof.
  unfold has_column. destruct (col_lookup n (columns df)); [eauto|discriminate].
Qed.

Lemma tail_window_run derivative_order k df col :
  col_lookup "derivative_order" (columns df) = Some col ->
  tail_window derivative_order k df
  = Ok (iloc_from (- k) (frame_filter (map (eq_scalar derivative_order) col) df)).
Proof.
  intros Hcol. unfold tail_window, getattr. now rewrite Hcol.
Qed.

Lemma window_lookup start mask df n :
  col_lookup n (columns (iloc_from start (frame_filter mask df)))
  = option_map
      (fun c => skipn (slice_start start (length (mask_select mask (index df))))
                      (mask_select mask c))
      (col_lookup n (columns df)).
Proof.
  unfold iloc_from, frame_filter, nrows. cbn [columns index].
  rewrite map_map. cbn [fst snd].
  apply (col_lookup_map_cols
           (fun c => skipn (slice_start start
                              (length (mask_select mask (index df))))
                           (mask_select mask c))).
Qed.

Lemma matching_rows_index derivative_order df col :
  wf_frame df ->
  col_lookup "derivative_order" (columns df) = Some col ->
  length (mask_select (map (eq_scalar derivative_order) col) (index df))
  = matching_rows derivative_order df.
Proof.
  intros Hwf Hcol. unfold matching_rows. rewrite Hcol.
  rewrite <- mask_select_map. apply mask_select_length.
  symmetry. eapply col_lookup_length; eauto.
Qed.

(** A column of the tail window of a trend table: the cells of the rows
    of the requested order, from the slice's start on. *)
Lemma tail_window_column derivative_order k df col n c :
  wf_frame df ->
  col_lookup "derivative_order" (columns df) = Some col ->
  col_lookup n (columns df) = Some c ->
  exists w,
    tail_window derivative_order k df = Ok w /\
    index_name w = index_name df /\
    column_or_nan n w
    = skipn (slice_start (- k) (matching_rows derivative_order df))
            (mask_select (map (eq_scalar derivative_order) col) c).
Proof.
  intros Hwf Hcol Hc.
  exists (iloc_from (- k)
            (frame_filter (map (eq_scalar derivative_order) col) df)).
  split; [exact (tail_window_run _ _ _ _ Hcol)|].
  split; [reflexivity|].
  unfold column_or_nan. rewrite window_lookup, Hc. cbn [option_map].
  now rewrite (matching_rows_index _ _ _ Hwf Hcol).
Qed.

Lemma forallb_sub {A} (f : A -> bool) l l' :
  (forall x, In x l' -> In x l) -> forallb f l = true -> forallb f l' = true.
Proof.
  intros Hsub Hall. apply forallb_forall. intros x Hx.
  eapply forallb_forall in Hall; eauto.
Qed.

Lemma trend_table_window derivative_order k df :
  trend_table df ->
  exists w, tail_window derivative_order k df = Ok w /\ good_window w.
Proof.
  intros [Hwf Horder Hid (vals & Hvals & Hfloat) Hname].
  destruct (has_column_lookup _ _ Horder) as [col Hcol].
  destruct (has_column_lookup _ _ Hid) as [ids Hids].
  destruct (tail_window_column derivative_order k df col _ _ Hwf Hcol Hvals)
    as (w & Hw & Hwname & Hwvals).
  exists w. split; [exact Hw|].
  rewrite (tail_window_run _ _ _ _ Hcol) in Hw. inversion Hw as [Hw'].
  unfold good_window, has_column. rewrite !window_lookup, Hids, Hvals.
  repeat split.
  - rewrite Hw'. now rewrite Hwname.
  - rewrite Hw', Hwvals. eapply forallb_sub; [|exact Hfloat].
    intros x Hx. eapply mask_select_In, skipn_In, Hx.
Qed.

Lemma common_name_not ws name :
  Forall (fun w => index_name w <> Some name) ws ->
  name_eqb (common_name ws) (Some name) = false.
Proof.
  intros Hall. destruct ws as [|w rest]; [reflexivity|]. simpl.
  inversion Hall as [|? ? Hw _]; subst.
  destruct (forallb _ rest); [|reflexivity].
  destruct (index_name w) as [s|]; [|reflexivity]. simpl.
  destruct (String.eqb_spec s name); [congruence | reflexivity].
Qed.

Lemma pd_concat_column ws n w0 :
  In w0 ws -> has_column w0 n = true ->
  exists tdf, pd_concat ws = Ok tdf /\
    index_name tdf = common_name ws /\
    col_lookup n (columns tdf) = Some (flat_map (column_or_nan n) ws).
Proof.
  intros Hin Hcol. destruct ws as [|w rest]; [destruct Hin|].
  eexists. split; [reflexivity|]. split; [reflexivity|].
  cbn [columns].
  apply (col_lookup_named (fun n => flat_map (column_or_nan n) (w :: rest))).
  destruct (has_column_lookup _ _ Hcol) as [c Hc].
  eapply all_names_In; [exact Hin|]. eapply col_lookup_In; eauto.
Qed.

Lemma floats_of_total l :
  forallb float_cell l = true -> exists qs, floats_of l = Ok qs.
Proof.
  induction l as [|c rest IH]; simpl; [eauto|].
  destruct c; simpl; try discriminate; intros Hall.
  - now apply IH.
  - destruct (IH Hall) as [qs ->]. eauto.
Qed.

Lemma documented_reduction_total max_or_avg l :
  forallb float_cell l = true ->
  exists v, documented_reduction max_or_avg l = Ok v.
Proof.
  intros Hall. destruct (floats_of_total _ Hall) as [qs Hqs].
  unfold documented_reduction, reduce_mean, reduce_max.
  destruct (String.eqb max_or_avg "avg"); rewrite Hqs;
    destruct qs; eauto.
Qed.

Lemma forallb_flat_map {A B} (f : B -> bool) (g : A -> list B) l :
  Forall (fun x => forallb f (g x) = true) l ->
  forallb f (flat_map g l) = true.
Proof.
  induction 1 as [|x l Hx Hl IH]; simpl; [reflexivity|].
  rewrite forallb_app, Hx, IH. reflexivity.
Qed.

(** The windows of a non-empty list of trend tables and their pooled
    table: what [trending] groups on and what it aggregates. *)
Lemma pooled_table derivative_order k dfs :
  dfs <> [] -> Forall trend_table dfs ->
  exists ws tdf,
    traverse (tail_window derivative_order k) dfs = Ok ws /\
    Forall2 (fun df w => tail_window derivative_order k df = Ok w) dfs ws /\
    pd_concat ws = Ok tdf /\
    grouper tdf "id" = Ok (flat_map (column_or_nan "id") ws) /\
    getitem tdf "derivative_value"
    = Ok (flat_map (column_or_nan "derivative_value") ws) /\
    forallb float_cell (flat_map (column_or_nan "derivative_value") ws) = true.
Proof.
  intros Hne Htables.
  destruct (traverse_total (tail_window derivative_order k) dfs) as [ws Hws].
  { intros df Hdf. rewrite List.Forall_forall in Htables.
    destruct (trend_table_window derivative_order k df (Htables df Hdf))
      as (w & Hw & _). eauto. }
  pose proof (traverse_Forall2 _ _ _ Hws) as Hall.
  assert (Hgood : Forall good_window ws).
  { clear -Hall Htables. induction Hall as [|df w dfs ws Hw _ IH];
      [constructor|].
    inversion Htables as [|? ? Hdf Hrest]; subst. constructor; [|auto].
    destruct (trend_table_window derivative_order k df Hdf) as (w' & Hw' & Hg).
    congruence. }
  destruct ws as [|w0 ws0] eqn:Hwseq.
  { inversion Hall; subst. contradiction. }
  rewrite <- Hwseq in *. assert (Hin : In w0 ws) by (subst ws; now left).
  assert (Hw0 : good_window w0).
  { rewrite List.Forall_forall in Hgood. now apply Hgood. }
  destruct Hw0 as (Hid0 & Hval0 & _ & _).
  destruct (pd_concat_column ws "id" w0 Hin Hid0) as (tdf & Htdf & Hname & Hids).
  destruct (pd_concat_column ws "derivative_value" w0 Hin Hval0)
    as (tdf' & Htdf' & _ & Hvals).
  assert (tdf' = tdf) as -> by congruence.
  exists ws, tdf. repeat split; auto.
  - unfold grouper. rewrite Hids, Hname, common_name_not; [reflexivity|].
    eapply List.Forall_impl; [|exact Hgood]. intros w Hw. apply Hw.
  - unfold getitem. now rewrite Hvals.
  - apply forallb_flat_map. eapply List.Forall_impl; [|exact Hgood].
    intros w Hw. apply Hw.
Qed.

Section TrendingOnTrendTables.
Context `{NumericServices}.

Lemma reduction_of_documented max_or_avg :
  max_or_avg = "max" \/ max_or_avg = "avg" ->
  reduction_of (agg_name max_or_avg) = Ok (documented_reduction max_or_avg).
Proof. intros [->| ->]; reflexivity. Qed.

(** When [trending] returns on a non-empty list of trend tables, whatever
    the reduction, what it returns is a new ranking table whose ids are the
    group keys of the windows' pooled [id] column. *)
Lemma trending_returned (h : heap) refs dfs column_id derivative_order
    max_or_avg k h' o :
  dfs <> [] ->
  Forall2 (fun r df => h !! r = Some df) refs dfs ->
  Forall trend_table dfs ->
  trending refs column_id derivative_order max_or_avg k h = (h', Ok o) ->
  exists ws scores,
    Forall2 (fun df w => tail_window derivative_order k df = Ok w) dfs ws /\
    let out := group_keys (flat_map (column_or_nan "id") ws) in
    length scores = length out /\
    o = length h /\ h' = h ++ [ranking_table out scores].
Proof.
  intros Hne Hrefs Htables Hrun.
  destruct (pooled_table derivative_order k dfs Hne Htables)
    as (ws & tdf & Hws & Hall & Htdf & Hkeys & _ & _).
  rewrite (trending_run _ _ _ _ _ _ _ Hrefs), Hws, Htdf in Hrun.
  destruct (groupby_agg tdf "id" "derivative_value" (agg_name max_or_avg))
    as [g|] eqn:Hg; [|discriminate].
  destruct (groupby_agg_ok _ _ _ Hg)
    as (keys & vals & f & scores & Hkeys' & _ & _ & Hscores & ->).
  cbn [columns index] in Hrun. inversion Hrun; subst.
  assert (keys = flat_map (column_or_nan "id") ws) as -> by congruence.
  exists ws, scores. split; [exact Hall|]. split; [|auto].
  now apply traverse_length in Hscores.
Qed.

(** With ['max'] or ['avg'] it does return: each score is the documented
    reduction of the pooled [derivative_value] cells of its group. *)
Lemma trending_on_trend_tables (h : heap) refs dfs column_id derivative_order
    max_or_avg k :
  dfs <> [] ->
  Forall2 (fun r df => h !! r = Some df) refs dfs ->
  Forall trend_table dfs ->
  max_or_avg = "max" \/ max_or_avg = "avg" ->
  exists ws scores,
    Forall2 (fun df w => tail_window derivative_order k df = Ok w) dfs ws /\
    let keys := flat_map (column_or_nan "id") ws in
    let vals := flat_map (column_or_nan "derivative_value") ws in
    traverse (fun key => documented_reduction max_or_avg
                           (group_values key keys vals)) (group_keys keys)
    = Ok scores /\
    trending refs column_id derivative_order max_or_avg k h
    = (h ++ [ranking_table (group_keys keys) scores], Ok (length h)).
Proof.
  intros Hne Hrefs Htables Hmode.
  destruct (pooled_table derivative_order k dfs Hne Htables)
    as (ws & tdf & Hws & Hall & Htdf & Hkeys & Hvals & Hfloat).
  set (keys := flat_map (column_or_nan "id") ws) in *.
  set (vals := flat_map (column_or_nan "derivative_value") ws) in *.
  destruct (traverse_total
              (fun key => documented_reduction max_or_avg
                            (group_values key keys vals)) (group_keys keys))
    as [scores Hscores].
  { intros key _. apply documented_reduction_total.
    eapply forallb_sub; [|exact Hfloat]. intros x. apply mask_select_In. }
  exists ws, scores. split; [exact Hall|]. split; [exact Hscores|].
  rewrite (trending_run _ _ _ _ _ _ _ Hrefs), Hws, Htdf.
  rewrite (groupby_agg_run tdf _ keys vals
             (documented_reduction max_or_avg) scores); auto.
  now apply reduction_of_documented.
Qed.

End TrendingOnTrendTables.

(** ** The rows of the ranking table *)

Lemma slice_start_tail (k m : nat) :
  1 <= m -> slice_start (- Z.of_nat k) m < m.
Proof.
  intros Hm. unfold slice_start.
  destruct (Z.ltb_spec (- Z.of_nat k) 0); lia.
Qed.

Lemma slice_start_short (k m : nat) :
  m < k -> slice_start (- Z.of_nat k) m = 0.
Proof.
  intros Hm. unfold slice_start.
  destruct (Z.ltb_spec (- Z.of_nat k) 0); lia.
Qed.

(** The [id] cells of the tail window of a table that carries [c]. *)
Lemma window_id_cells derivative_order (k : nat) df c w :
  trend_table df -> carries_id c df ->
  tail_window derivative_order (Z.of_nat k) df = Ok w ->
  (forall x, In x (column_or_nan "id" w) -> x = c) /\
  (1 <= matching_rows derivative_order df -> In c (column_or_nan "id" w)).
Proof.
  intros [Hwf Horder _ _ _] [_ Hid] Hw.
  destruct (has_column_lookup _ _ Horder) as [col Hcol].
  destruct (tail_window_column derivative_order (Z.of_nat k) df col _ _
              Hwf Hcol Hid) as (w' & Hw' & _ & Hcells).
  assert (w' = w) as -> by congruence.
  assert (Hall : forall x, In x (column_or_nan "id" w) -> x = c).
  { intros x Hx. rewrite Hcells in Hx.
    apply skipn_In, mask_select_In in Hx. now apply repeat_spec in Hx. }
  split; [exact Hall|]. intros Hrows.
  assert (Hlen : 1 <= length (column_or_nan "id" w)).
  { rewrite Hcells, length_skipn.
    rewrite (mask_select_length _ _ (index df))
      by (rewrite repeat_length; reflexivity).
    rewrite (matching_rows_index _ _ _ Hwf Hcol).
    pose proof (slice_start_tail k _ Hrows). lia. }
  destruct (column_or_nan "id" w) as [|x rest]; [simpl in Hlen; lia|].
  left. apply Hall. now left.
Qed.

Lemma pooled_ids derivative_order (k : nat) ids dfs ws :
  Forall2 carries_id ids dfs -> Forall trend_table dfs ->
  Forall (fun df => 1 <= matching_rows derivative_order df) dfs ->
  Forall2 (fun df w => tail_window derivative_order (Z.of_nat k) df = Ok w)
          dfs ws ->
  forall x, In x (flat_map (column_or_nan "id") ws) <-> In x ids.
Proof.
  intros Hids. revert ws.
  induction Hids as [|c df ids dfs Hc Hrest IH]; intros ws Htables Hrows Hws x.
  - inversion Hws. simpl. tauto.
  - inversion Hws as [|? w ? ws' Hw Hws']; subst.
    inversion Htables; subst. inversion Hrows; subst.
    destruct (window_id_cells derivative_order k df c w) as [Hall Hin]; auto.
    simpl. rewrite in_app_iff, IH by assumption. split.
    + intros [Hx|Hx]; [left; symmetry; auto | now right].
    + intros [<-|Hx]; [left; auto | now right].
Qed.

Lemma carried_ids_present ids dfs :
  Forall2 carries_id ids dfs -> forall c, In c ids -> isna c = false.
Proof.
  induction 1 as [|c df ids dfs [Hc _] _ IH]; simpl; [tauto|].
  intros c' [<-|Hin]; auto.
Qed.

Lemma window_in_pool derivative_order k df dfs ws :
  Forall2 (fun df w => tail_window derivative_order k df = Ok w) dfs ws ->
  In df dfs ->
  exists w, In w ws /\ tail_window derivative_order k df = Ok w.
Proof.
  induction 1 as [|d w dfs ws Hd _ IH]; intros Hdf; [destruct Hdf|].
  destruct Hdf as [->|Hdf]; [exists w; split; [now left | exact Hd]|].
  destruct (IH Hdf) as (w' & Hw' & Hrun). exists w'. split; [now right|auto].
Qed.

Section RankingRows.
Context `{NumericServices}.

(** C4, amended.  Take a non-empty list of trend tables, each carrying the
    id of its series on every row and each with at least one row of the
    requested derivative order, and a number of rows [k].  The table
    [trending] returns is a ranking table in which no two rows have the
    same id, every id of the input has its row, and every row has an id of
    the input; and with [max_or_avg] one of ['max'], ['avg'] it does
    return. *)
Theorem trending_one_row_per_id :
  forall (h : heap) (refs : list nat) (dfs : list DataFrame) (ids : list cell)
         (column_id max_or_avg : string) (derivative_order : Z) (k : nat),
    dfs <> [] ->
    Forall2 (fun r df => h !! r = Some df) refs dfs ->
    Forall trend_table dfs ->
    Forall2 carries_id ids dfs ->
    Forall (fun df => 1 <= matching_rows derivative_order df) dfs ->
    (forall h' o,
        trending refs column_id derivative_order max_or_avg (Z.of_nat k) h
        = (h', Ok o) ->
        exists out scores,
          o = length h /\ h' = h ++ [ranking_table out scores] /\
          length scores = length out /\
          NoDupA same_key out /\
          (forall c, In c ids -> exists x, In x out /\ same_key c x) /\
          (forall x, In x out -> In x ids)) /\
    (max_or_avg = "max" \/ max_or_avg = "avg" ->
     exists h' o,
       trending refs column_id derivative_order max_or_avg (Z.of_nat k) h
       = (h', Ok o)).
Proof.
  intros h refs dfs ids column_id max_or_avg derivative_order k
    Hne Hrefs Htables Hids Hrows. split.
  - intros h' o Hrun.
    destruct (trending_returned h refs dfs column_id derivative_order
                max_or_avg (Z.of_nat k) h' o Hne Hrefs Htables Hrun)
      as (ws & scores & Hws & Hlen & -> & ->).
    pose proof (pooled_ids derivative_order k ids dfs ws Hids Htables Hrows Hws)
      as Hpool.
    eexists _, scores. split; [reflexivity|]. split; [reflexivity|].
    split; [exact Hlen|]. split; [|split].
    + apply group_keys_NoDupA.
    + intros c Hc. apply group_keys_covers.
      * now apply Hpool.
      * eapply carried_ids_present; eauto.
    + intros x Hx. apply Hpool. now apply group_keys_In in Hx.
  - intros Hmode.
    destruct (trending_on_trend_tables h refs dfs column_id derivative_order
                max_or_avg (Z.of_nat k) Hne Hrefs Htables Hmode)
      as (ws & scores & _ & _ & Hrun).
    eauto.
Qed.

(** C10, amended.  Take a trend table of the input list with at least one
    and fewer than [k] rows of the requested derivative order.  Its tail
    window is the whole of its matching rows ([min k n] of them); the table
    [trending] returns has a row, with a score, for the id the table
    carries; and with [max_or_avg] one of ['max'], ['avg'] [trending] does
    return. *)
Theorem short_table_is_used_whole :
  forall (h : heap) (refs : list nat) (dfs : list DataFrame)
         (column_id max_or_avg : string) (derivative_order : Z) (k : nat)
         (df : DataFrame) (c : cell) (col : list cell),
    Forall2 (fun r df => h !! r = Some df) refs dfs ->
    Forall trend_table dfs ->
    In df dfs -> carries_id c df ->
    col_lookup "derivative_order" (columns df) = Some col ->
    1 <= matching_rows derivative_order df ->
    matching_rows derivative_order df < k ->
    let matching := frame_filter (map (eq_scalar derivative_order) col) df in
    (exists w,
        tail_window derivative_order (Z.of_nat k) df = Ok w /\
        index w = index matching /\
        (forall n, column_or_nan n w = column_or_nan n matching) /\
        nrows w = Nat.min k (matching_rows derivative_order df)) /\
    (forall h' o,
        trending refs column_id derivative_order max_or_avg (Z.of_nat k) h
        = (h', Ok o) ->
        exists out scores,
          o = length h /\ h' = h ++ [ranking_table out scores] /\
          length scores = length out /\
          exists x, In x out /\ same_key c x) /\
    (max_or_avg = "max" \/ max_or_avg = "avg" ->
     exists h' o,
       trending refs column_id derivative_order max_or_avg (Z.of_nat k) h
       = (h', Ok o)).
Proof.
  intros h refs dfs column_id max_or_avg derivative_order k df c col
    Hrefs Htables Hdf Hc Hcol Hone Hshort matching.
  assert (Hne : dfs <> []) by (intros ->; destruct Hdf).
  assert (Hdf' : trend_table df).
  { rewrite List.Forall_forall in Htables. auto. }
  pose proof (tt_wf _ Hdf') as Hwf.
  assert (Hoff : slice_start (- Z.of_nat k) (nrows matching) = 0).
  { unfold nrows, matching, frame_filter. cbn [index].
    rewrite (matching_rows_index _ _ _ Hwf Hcol).
    now apply slice_start_short. }
  split; [|split].
  - exists (iloc_from (- Z.of_nat k) matching).
    split; [exact (tail_window_run _ _ _ _ Hcol)|].
    split; [unfold iloc_from; now rewrite Hoff|].
    split.
    + intros n. unfold column_or_nan, iloc_from at 1 2. cbn [columns index].
      rewrite Hoff.
      rewrite (col_lookup_map_cols (fun c => skipn 0 c)).
      destruct (col_lookup n _); reflexivity.
    + unfold iloc_from. rewrite Hoff. unfold nrows, matching, frame_filter.
      cbn [index]. rewrite skipn_O.
      rewrite (matching_rows_index _ _ _ Hwf Hcol). lia.
  - intros h' o Hrun.
    destruct (trending_returned h refs dfs column_id derivative_order
                max_or_avg (Z.of_nat k) h' o Hne Hrefs Htables Hrun)
      as (ws & scores & Hws & Hlen & -> & ->).
    eexists _, scores. split; [reflexivity|]. split; [reflexivity|].
    split; [exact Hlen|].
    apply group_keys_covers; [|apply Hc]. apply in_flat_map.
    destruct (window_in_pool _ _ _ _ _ Hws Hdf) as (w & Hw & Hrunw).
    exists w. split; [exact Hw|].
    now apply (window_id_cells derivative_order k df c w Hdf' Hc Hrunw).
  - intros Hmode.
    destruct (trending_on_trend_tables h refs dfs column_id derivative_order
                max_or_avg (Z.of_nat k) Hne Hrefs Htables Hmode)
      as (ws & scores & _ & _ & Hrun).
    eauto.
Qed.

End RankingRows.

Lemma trend_table_tagged id vals dvals order :
  length dvals = length vals -> trend_table (tagged id vals dvals order).
Proof.
  intros Hlen. split.
  - unfold wf_frame, tagged, series, nrows. cbn [columns index].
    rewrite length_RangeIndex.
    repeat constructor; cbn [snd];
      rewrite ?length_map, ?repeat_length; auto.
  - reflexivity.
  - reflexivity.
  - exists (map Num dvals). split; [reflexivity|].
    apply forallb_forall. intros x Hx. apply in_map_iff in Hx as (q & <- & _).
    reflexivity.
  - discriminate.
Qed.

Lemma carries_id_tagged id vals dvals order :
  carries_id (Str id) (tagged id vals dvals order).
Proof.
  split; [reflexivity|]. unfold tagged, series, nrows. cbn [columns index].
  now rewrite length_RangeIndex.
Qed.

Lemma trending_one_row_per_id_witness :
  (exists out scores,
      2 = length [table_A; table_B] /\
      [table_A; table_B; ranking_table [Str "A"; Str "B"] [Num 1; Num (-1)]]
      = [table_A; table_B] ++ [ranking_table out scores] /\
      length scores = length out /\
      NoDupA same_key out /\
      (forall c, In c [Str "A"; Str "B"] -> exists x, In x out /\ same_key c x) /\
      (forall x, In x out -> In x [Str "A"; Str "B"])) /\
  (exists h' o,
      trending (H := small_services) [0; 1] "id" 1 "max" (Z.of_nat 2)
               [table_A; table_B] = (h', Ok o)).
Proof.
  destruct (trending_one_row_per_id (H := small_services) [table_A; table_B]
              [0; 1] [table_A; table_B] [Str "A"; Str "B"] "id" "max" 1 2)
    as [Hrows Hruns].
  - discriminate.
  - repeat constructor.
  - repeat constructor; now apply trend_table_tagged.
  - repeat constructor; apply carries_id_tagged.
  - repeat constructor; vm_compute; lia.
  - split.
    + apply (Hrows _ 2). vm_compute. reflexivity.
    + apply Hruns. now left.
Defined.

(** C4 as stated fails in two ways.  A table that holds the rows of two
    series has an id column and a matching row, but the window of its last
    row holds the id of the lower series only, and the ranking has no row
    for the upper one.  And a negative [k] cuts the window from the front:
    with [k = -5] nothing is left of the five rows of a table, and the
    ranking is empty. *)
Lemma last_rows_hide_an_id :
  (trend_table two_ids_table /\
   1 <= matching_rows 1 two_ids_table /\
   In (Str "A") (column_or_nan "id" two_ids_table) /\
   trending (H := small_services) [0] "id" 1 "max" 1 [two_ids_table]
   = ([two_ids_table; ranking_table [Str "B"] [Num 3]], Ok 1) /\
   ~ exists x, In x [Str "B"] /\ same_key (Str "A") x) /\
  (trend_table table_A /\
   1 <= matching_rows 1 table_A /\
   In (Str "A") (column_or_nan "id" table_A) /\
   trending (H := small_services) [0] "id" 1 "max" (-5) [table_A]
   = ([table_A; ranking_table [] []], Ok 1)).
Proof.
  split.
  - split; [|split; [|split; [|split]]].
    + split.
      * repeat constructor.
      * reflexivity.
      * reflexivity.
      * eexists. split; reflexivity.
      * discriminate.
    + vm_compute. lia.
    + now left.
    + vm_compute. reflexivity.
    + intros (x & [<-|[]] & Hkey). vm_compute in Hkey. discriminate.
  - split; [now apply trend_table_tagged|].
    split; [vm_compute; lia|].
    split; [now left|].
    vm_compute. reflexivity.
Qed.

(** C10 as stated fails for a table none of whose rows has the requested
    order: it has fewer than [k] matching rows, [trending] returns, and the
    ranking table has no row at all, hence none for its id. *)
Lemma no_matching_row_no_score :
  trend_table second_order_only /\
  carries_id (Str "A") second_order_only /\
  matching_rows 1 second_order_only < 5 /\
  trending (H := small_services) [0] "id" 1 "max" 5 [second_order_only]
  = ([second_order_only; ranking_table [] []], Ok 1) /\
  ~ exists x, In x (@nil cell) /\ same_key (Str "A") x.
Proof.
  split; [now apply trend_table_tagged|].
  split; [apply carries_id_tagged|].
  split; [vm_compute; lia|].
  split; [vm_compute; reflexivity|].
  intros (x & [] & _).
Qed.

Lemma short_table_is_used_whole_witness :
  let matching :=
    frame_filter (map (eq_scalar 1) (repeat (of_int 1) 5)) table_A in
  (exists w,
      tail_window 1 (Z.of_nat 7) table_A = Ok w /\
      index w = index matching /\
      (forall n, column_or_nan n w = column_or_nan n matching) /\
      nrows w = Nat.min 7 (matching_rows 1 table_A)) /\
  (exists out scores,
      2 = length [table_A; table_B] /\
      [table_A; table_B;
       ranking_table [Str "A"; Str "B"] [Num (5 # 5); Num (-5 # 5)]]
      = [table_A; table_B] ++ [ranking_table out scores] /\
      length scores = length out /\
      exists x, In x out /\ same_key (Str "A") x) /\
  (exists h' o,
      trending (H := small_services) [0; 1] "id" 1 "avg" (Z.of_nat 7)
               [table_A; table_B] = (h', Ok o)).
Proof.
  destruct (short_table_is_used_whole (H := small_services) [table_A; table_B]
              [0; 1] [table_A; table_B] "id" "avg" 1 7 table_A (Str "A")
              (repeat (of_int 1) 5))
    as (Hwindow & Hrow & Hruns).
  - repeat constructor.
  - repeat constructor; now apply trend_table_tagged.
  - now left.
  - apply carries_id_tagged.
  - reflexivity.
  - vm_compute; lia.
  - vm_compute; lia.
  - split; [exact Hwindow|]. split.
    + apply (Hrow _ 2). vm_compute. reflexivity.
    + apply Hruns. now right.
Defined.

(** ** The order and the content of the ranking table *)

Lemma cell_leb_total a b : cell_leb a b = false -> cell_leb b a = true.
Proof.
  destruct a as [| |p|s], b as [| |q|t]; simpl; try reflexivity;
    try discriminate.
  - intros Hpq. apply Qle_bool_iff. apply Qlt_le_weak, Qnot_le_lt.
    intros Hle. apply Qle_bool_iff in Hle. congruence.
  - intros Hst. destruct (String.leb_total s t) as [Hle|Hle]; congruence.
Qed.

Lemma insert_sorted_Sorted x l :
  Sorted key_le l -> Sorted key_le (insert_sorted x l).
Proof.
  induction 1 as [|y l Hl IH Hy]; simpl; [repeat constructor|].
  destruct (cell_leb x y) eqn:Hxy.
  - repeat constructor; auto.
  - constructor; [exact IH|].
    destruct l as [|z l]; simpl.
    + constructor. now apply cell_leb_total.
    + destruct (cell_leb x z); constructor.
      * now apply cell_leb_total.
      * now inversion Hy.
Qed.

(** The rows of the ranking table follow the order of the ids, not of the
    scores. *)
Lemma group_keys_Sorted keys : Sorted key_le (group_keys keys).
Proof.
  unfold group_keys, sort_keys.
  induction (unique _) as [|x l IH]; simpl; [constructor|].
  now apply insert_sorted_Sorted.
Qed.

(** C5 (the program departs from it).  The docstring of [trending] has the
    list ordered from maximum to minimum; no statement of it sorts.  For a
    falling series A and a rising series B the ranking table is A with
    score -1, then B with score 1: the order of the ids. *)
Theorem ranking_is_not_descending :
  trending (H := small_services) [0; 1] "id" 1 "max" 2 [falling_A; rising_B]
  = ([falling_A; rising_B;
      ranking_table [Str "A"; Str "B"] [Num (-1); Num 1]], Ok 2) /\
  ~ descending [-1; 1]%Q.
Proof.
  split; [vm_compute; reflexivity|].
  simpl. intros [Hle _]. now apply Hle.
Qed.

Section Scenario.
Context `{NumericServices}.

(** C8.  For the series A = 1, 2, 3, 4, 5 and B = 5, 4, 3, 2, 1, every row
    tagged with derivative order 1 and whatever their derivative values,
    [trending] with [derivative_order=1], [k=2], [max_or_avg='max'] returns
    the table of exactly two rows: A with the larger of the last two
    derivative values of A, and B with the larger of the last two of B. *)
Theorem scenario_two_series :
  forall a1 a2 a3 a4 a5 b1 b2 b3 b4 b5 : Q,
    let A := tagged "A" [1; 2; 3; 4; 5]%Z [a1; a2; a3; a4; a5] 1 in
    let B := tagged "B" [5; 4; 3; 2; 1]%Z [b1; b2; b3; b4; b5] 1 in
    trending [0; 1] "id" 1 "max" 2 [A; B]
    = ([A; B; ranking_table [Str "A"; Str "B"]
                            [Num (qmax a4 a5); Num (qmax b4 b5)]], Ok 2).
Proof.
  intros. subst A B. reflexivity.
Qed.

End Scenario.

(** C3 (the program departs from it at [k = 0]).  With [k = 0] the slice
    [[-k:]] is [[0:]], the whole table: [trending] scores A with the 9 of
    its first row, where the last 0 rows are no row and leave no id to
    rank. *)
Theorem trending_zero_k_pools_every_row :
  trending (H := small_services) [0] "id" 1 "max" 0 [early_peak]
  = ([early_peak; ranking_table [Str "A"] [Num 9]], Ok 1) /\
  ranking_by_words 1 "max" 0 [rows_of early_peak] = Ok [].
Proof.
  split; vm_compute; reflexivity.
Qed.

(** ** A positive k: the program against the specification's words *)

Lemma zip_rows_mask mask os is_ vs :
  length os = length is_ -> length os = length vs ->
  zip_rows (mask_select mask os) (mask_select mask is_) (mask_select mask vs)
  = mask_select mask (zip_rows os is_ vs).
Proof.
  revert os is_ vs.
  induction mask as [|b mask IH]; intros [|o os] [|i is_] [|v vs];
    simpl; try discriminate; try reflexivity.
  intros [= Hi] [= Hv]. destruct b; simpl; now rewrite IH.
Qed.

Lemma zip_rows_skipn n os is_ vs :
  length os = length is_ -> length os = length vs ->
  zip_rows (skipn n os) (skipn n is_) (skipn n vs)
  = skipn n (zip_rows os is_ vs).
Proof.
  revert os is_ vs.
  induction n as [|n IH]; intros [|o os] [|i is_] [|v vs];
    simpl; try discriminate; try reflexivity.
  intros [= Hi] [= Hv]. now apply IH.
Qed.

Lemma zip_rows_app os is_ vs os' is' vs' :
  length os = length is_ -> length os = length vs ->
  zip_rows (os ++ os') (is_ ++ is') (vs ++ vs')
  = zip_rows os is_ vs ++ zip_rows os' is' vs'.
Proof.
  revert is_ vs. induction os as [|o os IH]; intros [|i is_] [|v vs];
    simpl; try discriminate; try reflexivity.
  intros [= Hi] [= Hv]. now rewrite IH.
Qed.

Lemma zip_rows_orders os is_ vs :
  length os = length is_ -> length os = length vs ->
  map row_order (zip_rows os is_ vs) = os.
Proof.
  revert is_ vs. induction os as [|o os IH]; intros [|i is_] [|v vs];
    simpl; try discriminate; try reflexivity.
  intros [= Hi] [= Hv]. now rewrite IH.
Qed.

Lemma zip_rows_ids os is_ vs :
  length os = length is_ -> length os = length vs ->
  map row_id (zip_rows os is_ vs) = is_.
Proof.
  revert is_ vs. induction os as [|o os IH]; intros [|i is_] [|v vs];
    simpl; try discriminate; try reflexivity.
  intros [= Hi] [= Hv]. now rewrite IH.
Qed.

Lemma zip_rows_group key os is_ vs :
  length os = length is_ -> length os = length vs ->
  map row_value
      (List.filter (fun r => cell_eqb key (row_id r)) (zip_rows os is_ vs))
  = group_values key is_ vs.
Proof.
  unfold group_values. revert is_ vs.
  induction os as [|o os IH]; intros [|i is_] [|v vs];
    simpl; try discriminate; try reflexivity.
  intros [= Hi] [= Hv]. destruct (cell_eqb key i); simpl; now rewrite IH.
Qed.

Lemma zip_rows_filter derivative_order os is_ vs :
  length os = length is_ -> length os = length vs ->
  List.filter (fun r => eq_scalar derivative_order (row_order r))
              (zip_rows os is_ vs)
  = mask_select (map (eq_scalar derivative_order) os) (zip_rows os is_ vs).
Proof.
  intros Hi Hv.
  rewrite <- (mask_select_map
                (fun r => eq_scalar derivative_order (row_order r))).
  rewrite <- (map_map row_order (eq_scalar derivative_order)).
  now rewrite zip_rows_orders.
Qed.

Lemma slice_start_last (k m : nat) :
  1 <= k -> slice_start (- Z.of_nat k) m = m - k.
Proof.
  intros Hk. unfold slice_start.
  destruct (Z.ltb_spec (- Z.of_nat k) 0); lia.
Qed.

Lemma column_or_nan_present n df c :
  col_lookup n (columns df) = Some c -> column_or_nan n df = c.
Proof. unfold column_or_nan. now intros ->. Qed.

(** The rows of the tail window are the last [k] of the matching rows. *)
Lemma rows_of_tail_window derivative_order (k : nat) df w :
  trend_table df -> 1 <= k ->
  tail_window derivative_order (Z.of_nat k) df = Ok w ->
  rows_of w
  = last_k k (List.filter (fun r => eq_scalar derivative_order (row_order r))
                          (rows_of df)) /\
  length (column_or_nan "derivative_order" w) = length (column_or_nan "id" w) /\
  length (column_or_nan "derivative_order" w)
  = length (column_or_nan "derivative_value" w).
Proof.
  intros [Hwf Horder Hid (vals & Hvals & _) _] Hk Hw.
  destruct (has_column_lookup _ _ Horder) as [col Hcol].
  destruct (has_column_lookup _ _ Hid) as [ids Hids].
  destruct (tail_window_column derivative_order (Z.of_nat k) df col _ _
              Hwf Hcol Hcol) as (w1 & Hw1 & _ & Hc1).
  destruct (tail_window_column derivative_order (Z.of_nat k) df col _ _
              Hwf Hcol Hids) as (w2 & Hw2 & _ & Hc2).
  destruct (tail_window_column derivative_order (Z.of_nat k) df col _ _
              Hwf Hcol Hvals) as (w3 & Hw3 & _ & Hc3).
  assert (w1 = w) as -> by congruence.
  assert (w2 = w) as -> by congruence.
  assert (w3 = w) as -> by congruence.
  pose proof (col_lookup_length _ _ _ _ Hwf Hcol) as Lcol.
  pose proof (col_lookup_length _ _ _ _ Hwf Hids) as Lids.
  pose proof (col_lookup_length _ _ _ _ Hwf Hvals) as Lvals.
  assert (Hci : length col = length ids) by congruence.
  assert (Hcv : length col = length vals) by congruence.
  split; [|split].
  - unfold rows_of. rewrite Hc1, Hc2, Hc3.
    rewrite (column_or_nan_present _ _ _ Hcol),
      (column_or_nan_present _ _ _ Hids), (column_or_nan_present _ _ _ Hvals).
    rewrite zip_rows_skipn, zip_rows_mask; auto using mask_select_length.
    rewrite zip_rows_filter by assumption. unfold last_k. f_equal.
    rewrite slice_start_last by exact Hk. f_equal.
    unfold matching_rows. rewrite Hcol, <- mask_select_map.
    apply mask_select_length. symmetry.
    rewrite <- (zip_rows_orders col ids vals) at 2 by assumption.
    symmetry. apply length_map.
  - rewrite Hc1, Hc2, !length_skipn. f_equal. now apply mask_select_length.
  - rewrite Hc1, Hc3, !length_skipn. f_equal. now apply mask_select_length.
Qed.

Lemma pooled_rows derivative_order (k : nat) dfs ws :
  Forall trend_table dfs -> 1 <= k ->
  Forall2 (fun df w => tail_window derivative_order (Z.of_nat k) df = Ok w)
          dfs ws ->
  pooled_tail_windows derivative_order k (map rows_of dfs)
  = zip_rows (flat_map (column_or_nan "derivative_order") ws)
             (flat_map (column_or_nan "id") ws)
             (flat_map (column_or_nan "derivative_value") ws) /\
  length (flat_map (column_or_nan "derivative_order") ws)
  = length (flat_map (column_or_nan "id") ws) /\
  length (flat_map (column_or_nan "derivative_order") ws)
  = length (flat_map (column_or_nan "derivative_value") ws).
Proof.
  intros Htables Hk Hws. unfold pooled_tail_windows.
  induction Hws as [|df w dfs ws Hw _ IH]; [simpl; auto|].
  inversion Htables as [|? ? Hdf Hrest]; subst.
  destruct (rows_of_tail_window derivative_order k df w Hdf Hk Hw)
    as (Hrows & Hli & Hlv).
  destruct (IH Hrest) as (IHrows & IHli & IHlv).
  cbn [map flat_map]. rewrite IHrows, <- Hrows.
  rewrite zip_rows_app by assumption.
  rewrite !length_app. auto.
Qed.

Lemma traverse_paired {A B} (f g : A -> result B) l out :
  (forall x, f x = g x) ->
  traverse g l = Ok out ->
  traverse (fun x => match f x with
                     | Ok v => Ok (x, v)
                     | Raise e => Raise e
                     end) l
  = Ok (combine l out).
Proof.
  intros Hfg. revert out. induction l as [|x rest IH]; simpl; intros out Hrun.
  - now inversion Hrun.
  - rewrite Hfg. destruct (g x) as [v|]; [|discriminate].
    destruct (traverse g rest) as [vs|]; [|discriminate].
    inversion Hrun. now rewrite (IH vs).
Qed.

Section AgainstTheWords.
Context `{NumericServices}.

(** For a positive [k], [trending] computes what the specification
    describes: the
    rows of its ranking table are the ids and scores obtained by filtering
    on the derivative order, keeping the last [k] rows of each table,
    pooling, grouping by id and taking the maximum (['max']) or the mean
    (['avg']) of each group. *)
Lemma trending_follows_the_words (h : heap) refs dfs column_id derivative_order
    max_or_avg (k : nat) :
  dfs <> [] ->
  Forall2 (fun r df => h !! r = Some df) refs dfs ->
  Forall trend_table dfs ->
  max_or_avg = "max" \/ max_or_avg = "avg" ->
  1 <= k ->
  exists out scores,
    trending refs column_id derivative_order max_or_avg (Z.of_nat k) h
    = (h ++ [ranking_table out scores], Ok (length h)) /\
    ranking_by_words derivative_order max_or_avg k (map rows_of dfs)
    = Ok (combine out scores).
Proof.
  intros Hne Hrefs Htables Hmode Hk.
  destruct (trending_on_trend_tables h refs dfs column_id derivative_order
              max_or_avg (Z.of_nat k) Hne Hrefs Htables Hmode)
    as (ws & scores & Hws & Hscores & Hrun).
  destruct (pooled_rows derivative_order k dfs ws Htables Hk Hws)
    as (Hpool & Hli & Hlv).
  eexists _, scores. split; [exact Hrun|].
  assert (Hwords :
    group_scores (documented_reduction max_or_avg)
      (pooled_tail_windows derivative_order k (map rows_of dfs))
    = Ok (combine (group_keys (flat_map (column_or_nan "id") ws)) scores)).
  { unfold group_scores. rewrite Hpool, zip_rows_ids by assumption.
    apply (traverse_paired _
             (fun key => documented_reduction max_or_avg
                (group_values key (flat_map (column_or_nan "id") ws)
                   (flat_map (column_or_nan "derivative_value") ws)))).
    - intros key. now rewrite zip_rows_group.
    - exact Hscores. }
  unfold ranking_by_words.
  destruct Hmode as [-> | ->]; exact Hwords.
Qed.

End AgainstTheWords.

(** * Further properties of the module *)

(** ** naive_trend on a column without strings *)

Lemma cell_sub_float a b :
  number_or_missing a = true -> number_or_missing b = true ->
  cell_sub a b = Ok (float_sub a b).
Proof. destruct a, b; simpl; try discriminate; reflexivity. Qed.

Lemma float_sub_float a b : float_cell (float_sub a b) = true.
Proof. destruct a, b; reflexivity. Qed.

Lemma float_sub_present a b : number_or_missing (float_sub a b) = true.
Proof. destruct a, b; reflexivity. Qed.

Lemma reduce_mean_pair a b :
  float_cell a = true -> float_cell b = true ->
  reduce_mean [a; b] = Ok (mean2 a b).
Proof. destruct a, b; simpl; try discriminate; reflexivity. Qed.

Lemma series_sub_lag prev y :
  number_or_missing prev = true -> forallb number_or_missing y = true ->
  series_sub (prev :: firstn (pred (length y)) y) y = Ok (lagged prev y).
Proof.
  unfold series_sub. revert prev.
  induction y as [|c rest IH]; intros prev Hprev Hy; [reflexivity|].
  simpl in Hy. apply andb_prop in Hy as [Hc Hrest].
  destruct rest as [|c' rest'].
  - simpl. now rewrite cell_sub_float.
  - specialize (IH c Hc Hrest).
    change (firstn (pred (length (c :: c' :: rest'))) (c :: c' :: rest'))
      with (c :: firstn (pred (length (c' :: rest'))) (c' :: rest')).
    cbn [combine traverse fst snd lagged] in *.
    now rewrite cell_sub_float, IH.
Qed.

Lemma series_sub_self_float y :
  forallb number_or_missing y = true ->
  series_sub y y = Ok (map (fun c => float_sub c c) y).
Proof.
  unfold series_sub. induction y as [|c rest IH]; intros Hy; [reflexivity|].
  simpl in Hy. apply andb_prop in Hy as [Hc Hrest].
  cbn [map combine traverse fst snd]. now rewrite cell_sub_float, IH.
Qed.

Lemma series_sub_two_float y :
  series_sub_scalar (map (fun c => float_sub c c) y) 2
  = Ok (map (fun c => float_sub (float_sub c c) (Num 2)) y).
Proof.
  unfold series_sub_scalar. induction y as [|c rest IH]; [reflexivity|].
  cbn [map traverse]. rewrite cell_sub_float, IH; auto using float_sub_present.
Qed.

Lemma length_lagged prev y : length (lagged prev y) = length y.
Proof. revert prev. induction y; intros; simpl; auto. Qed.

Lemma length_naive_cells prev y : length (naive_cells prev y) = length y.
Proof. revert prev. induction y; intros; simpl; auto. Qed.

Lemma mean_of_lagged prev y :
  traverse (fun ab => reduce_mean [fst ab; snd ab])
           (combine (lagged prev y)
                    (map (fun c => float_sub (float_sub c c) (Num 2)) y))
  = Ok (naive_cells prev y).
Proof.
  revert prev. induction y as [|c rest IH]; intros prev; [reflexivity|].
  cbn [lagged map combine traverse fst snd naive_cells].
  rewrite reduce_mean_pair, IH; auto using float_sub_float.
Qed.

Lemma naive_cells_row prev y i c :
  nth_error y i = Some c ->
  nth_error (naive_cells prev y) i
  = Some (mean2 (float_sub (match i with O => prev | S j => nth j y NaN end) c)
                (float_sub (float_sub c c) (Num 2))).
Proof.
  revert prev i. induction y as [|c0 rest IH]; intros prev [|i] Hc;
    try discriminate.
  - simpl in Hc. inversion Hc. reflexivity.
  - simpl in Hc. cbn [naive_cells nth_error]. rewrite (IH c0 i Hc).
    destruct i; reflexivity.
Qed.

Lemma mean2_missing prev c :
  isna c = true ->
  mean2 (float_sub prev c) (float_sub (float_sub c c) (Num 2)) = NaN.
Proof. destruct prev, c; simpl; try discriminate; reflexivity. Qed.

(** X1.  On a column that holds no string (numbers, NaN and [None]),
    [naive_trend] returns a table with one [derivative_value] per row, and
    a row whose value is missing gets NaN: both differences are NaN there,
    so the mean that skips NaN has nothing to average. *)
Theorem naive_trend_on_floats :
  forall (h : heap) (df : nat) (column_value : string) (d : DataFrame)
         (y : list cell),
    h !! df = Some d -> wf_frame d ->
    getitem d column_value = Ok y ->
    forallb number_or_missing y = true ->
    exists m,
      naive_trend df column_value h = (h ++ [naive_frame d m], Ok (length h)) /\
      length m = length y /\
      forall i c, nth_error y i = Some c -> isna c = true ->
        nth_error m i = Some NaN.
Proof.
  intros h df column_value d y Hd Hwf Hy Hnum.
  pose proof (getitem_length _ _ _ Hwf Hy) as Hlen.
  exists (naive_cells NaN y). split; [|split].
  - unfold naive_trend. run_goal. rewrite Hd, Hy.
    assert (Hlag : series_sub (shift 1 y) y = Ok (lagged NaN y)).
    { destruct y as [|c rest]; [reflexivity|].
      rewrite shift_1_cons.
      exact (series_sub_lag NaN (c :: rest) eq_refl Hnum). }
    rewrite Hlag, series_sub_self_float, series_sub_two_float by exact Hnum.
    unfold getitem_list, getitem. cbn [concat_axis1 columns col_lookup traverse
      String.eqb Ascii.eqb Bool.eqb andb with_columns index index_name].
    change (with_columns (concat_axis1 ?n ?i _) ?cols)
      with (concat_axis1 n i cols).
    rewrite mean_axis1_two, mean_of_lagged.
    + rewrite setitem_series_fresh. do 3 rewrite setitem_scalar_fresh.
      reflexivity.
    + rewrite length_lagged. exact Hlen.
    + rewrite length_map. exact Hlen.
  - apply length_naive_cells.
  - intros i c Hc Hna. rewrite (naive_cells_row NaN y i c Hc).
    now rewrite mean2_missing.
Qed.

(** ** Tags, failures and column order of the estimators *)

Lemma tagged_naive_frame d m :
  let odf := naive_frame d m in
  tagged_with odf "derivative_method" (Str "naive") /\
  tagged_with odf "function_order" PyNone /\
  tagged_with odf "derivative_order" (of_int 1).
Proof.
  unfold tagged_with, naive_frame, getitem, nrows. simpl. repeat split.
  - rewrite !col_lookup_set_ne by discriminate.
    now rewrite col_lookup_set_eq.
  - rewrite !col_lookup_set_ne by discriminate.
    now rewrite col_lookup_set_eq.
  - now rewrite col_lookup_set_eq.
Qed.

(** X2.  When [naive_trend] returns, every row of its table carries the
    method ['naive'], the function order [None] and the derivative
    order 1. *)
Theorem naive_trend_tags_every_row :
  forall (h h' : heap) (df o : nat) (column_value : string),
    naive_trend df column_value h = (h', Ok o) ->
    exists odf, h' !! o = Some odf /\
      tagged_with odf "derivative_method" (Str "naive") /\
      tagged_with odf "function_order" PyNone /\
      tagged_with odf "derivative_order" (of_int 1).
Proof.
  intros h h' df o column_value Hrun.
  destruct (naive_trend_ok _ _ _ _ _ Hrun)
    as (d & y & d1 & y_y & d2 & m & _ & _ & _ & _ & _ & _ & -> & ->).
  eexists. split; [apply lookup_fresh|]. apply tagged_naive_frame.
Qed.

Lemma traverse_raise {A B} (f : A -> result B) l err :
  (forall x e, f x = Raise e -> e = err) ->
  (exists x, In x l /\ is_ok (f x) = false) ->
  traverse f l = Raise err.
Proof.
  intros Honly. induction l as [|x rest IH]; intros (x0 & Hin & Hx0).
  - destruct Hin.
  - simpl. destruct (f x) as [v|e] eqn:Hx.
    + destruct Hin as [->|Hin]; [rewrite Hx in Hx0; discriminate|].
      rewrite IH by eauto. reflexivity.
    + now rewrite (Honly x e Hx).
Qed.

Lemma length_shift periods y : length (shift periods y) = length y.
Proof.
  unfold shift. destruct (0 <=? periods)%Z;
    rewrite length_app, repeat_length.
  - rewrite length_firstn. lia.
  - rewrite length_skipn. lia.
Qed.

Lemma combine_diag {A} (l : list A) x : In x l -> In (x, x) (combine l l).
Proof.
  induction l as [|a l IH]; simpl; [tauto|].
  intros [->|Hin]; [now left | right; auto].
Qed.

Lemma cell_sub_raises a b e : cell_sub a b = Raise e -> e = TypeError.
Proof. destruct a, b; simpl; congruence. Qed.

Lemma traverse_raises {A B} (f : A -> result B) l err e :
  (forall x e, f x = Raise e -> e = err) ->
  traverse f l = Raise e -> e = err.
Proof.
  intros Honly. induction l as [|x rest IH]; simpl; [discriminate|].
  destruct (f x) as [v|e0] eqn:Hx.
  - destruct (traverse f rest); [discriminate|].
    intros [= <-]. now apply IH.
  - intros [= <-]. exact (Honly x e0 Hx).
Qed.

Lemma series_sub_raises a b e : series_sub a b = Raise e -> e = TypeError.
Proof.
  apply traverse_raises. intros [x y] e0. apply cell_sub_raises.
Qed.

Lemma series_sub_self_string y s :
  In (Str s) y -> series_sub y y = Raise TypeError.
Proof.
  intros Hin. apply traverse_raise.
  - intros [a b] e. apply cell_sub_raises.
  - exists (Str s, Str s). split; [now apply combine_diag | reflexivity].
Qed.

(** X3.  [naive_trend] fails before it copies anything: on a table without
    the column it raises [KeyError], and on a column holding a string it
    raises [TypeError], at the latest when it subtracts the column from
    itself; in both cases the heap is what it was. *)
Theorem naive_trend_failures :
  forall (h : heap) (df : nat) (column_value : string) (d : DataFrame),
    h !! df = Some d ->
    (has_column d column_value = false ->
     naive_trend df column_value h = (h, Raise KeyError)) /\
    (forall y s,
        getitem d column_value = Ok y -> In (Str s) y ->
        naive_trend df column_value h = (h, Raise TypeError)).
Proof.
  intros h df column_value d Hd. split.
  - intros Hcol. unfold naive_trend. run_goal. rewrite Hd.
    unfold getitem. unfold has_column in Hcol.
    destruct (col_lookup column_value (columns d)); [discriminate|reflexivity].
  - intros y s Hy Hs. unfold naive_trend. run_goal. rewrite Hd, Hy.
    destruct (series_sub (shift 1 y) y) as [y1_diff|e] eqn:Hlag.
    + now rewrite (series_sub_self_string y s Hs).
    + now rewrite (series_sub_raises _ _ _ Hlag).
Qed.

(** X4.  [sgolay_trend] raises [KeyError] on a table without the column,
    and so does [spline_trend] unless renumbering the index has already
    failed; neither has copied anything by then. *)
Theorem estimators_missing_column :
  forall `{NumericServices} (h : heap) (df : nat) (column_value : string)
         (d : DataFrame) (function_order derivative_order window_length : Z)
         (s : Q),
    h !! df = Some d -> has_column d column_value = false ->
    sgolay_trend df column_value function_order derivative_order
                 window_length h = (h, Raise KeyError) /\
    spline_trend df column_value function_order derivative_order s h
    = (h, match reset_index d with
          | Ok _ => Raise KeyError
          | Raise e => Raise e
          end).
Proof.
  intros H h df column_value d fo do w s Hd Hcol.
  assert (Hy : getitem d column_value = Raise KeyError).
  { unfold getitem. unfold has_column in Hcol.
    destruct (col_lookup column_value (columns d)); [discriminate|reflexivity]. }
  split.
  - unfold sgolay_trend. run_goal. now rewrite Hd, Hy.
  - unfold spline_trend. run_goal. rewrite Hd.
    destruct (reset_index d); [now rewrite Hy | reflexivity].
Qed.

(** X5.  [spline_trend] renumbers the index with [reset_index()], which
    turns the index into a column: on a table whose index is named like
    one of its columns it raises [ValueError], whatever the other
    arguments, and copies nothing. *)
Theorem spline_trend_index_name_clash :
  forall `{NumericServices} (h : heap) (df : nat) (column_value name : string)
         (d : DataFrame) (function_order derivative_order : Z) (s : Q),
    h !! df = Some d ->
    index_name d = Some name -> has_column d name = true ->
    spline_trend df column_value function_order derivative_order s h
    = (h, Raise ValueError).
Proof.
  intros H h df column_value name d fo do s Hd Hname Hcol.
  unfold spline_trend. run_goal. rewrite Hd.
  unfold reset_index. now rewrite Hname, Hcol.
Qed.

Lemma col_set_names name v cols :
  map fst (col_set name v cols)
  = if existsb (String.eqb name) (map fst cols) then map fst cols
    else map fst cols ++ [name].
Proof.
  induction cols as [|[n c] rest IH]; simpl; [reflexivity|].
  rewrite (String.eqb_sym name n).
  destruct (String.eqb_spec n name) as [->|Hne]; simpl; [reflexivity|].
  rewrite IH. destruct (existsb _ _); reflexivity.
Qed.

Lemma existsb_absent name names :
  ~ In name names -> existsb (String.eqb name) names = false.
Proof.
  intros Hnot. destruct (existsb _ names) eqn:Hex; [|reflexivity].
  apply existsb_exists in Hex as (n & Hn & Heq).
  apply String.eqb_eq in Heq. subst. contradiction.
Qed.

Lemma col_set_names_new name v cols :
  ~ In name (map fst cols) ->
  map fst (col_set name v cols) = map fst cols ++ [name].
Proof. intros Hnot. now rewrite col_set_names, existsb_absent. Qed.

Lemma col_set_names_prefix name v cols :
  map fst cols `prefix_of` map fst (col_set name v cols).
Proof.
  rewrite col_set_names. destruct (existsb _ _); [reflexivity|].
  now apply prefix_app_r.
Qed.

(** ** The columns of the estimators' tables *)

Lemma estimate_frame_names method d sm dv fo do :
  Forall (fun n => ~ In n (column_names d)) written_columns ->
  column_names (estimate_frame method d sm dv fo do)
  = column_names d ++ written_columns.
Proof.
  unfold written_columns, column_names, estimate_frame. cbn [columns with_columns].
  intros Hnew.
  inversion Hnew as [|? ? H1 Hnew1]; subst.
  inversion Hnew1 as [|? ? H2 Hnew2]; subst.
  inversion Hnew2 as [|? ? H3 Hnew3]; subst.
  inversion Hnew3 as [|? ? H4 Hnew4]; subst.
  inversion Hnew4 as [|? ? H5 _]; subst.
  assert (E1 : map fst (col_set "smoothed_value" (map of_float sm) (columns d))
               = map fst (columns d) ++ ["smoothed_value"])
    by now apply col_set_names_new.
  assert (E2 : map fst (col_set "derivative_value" (map of_float dv)
                 (col_set "smoothed_value" (map of_float sm) (columns d)))
               = map fst (columns d) ++ ["smoothed_value"; "derivative_value"]).
  { rewrite col_set_names_new, E1, <- ?app_assoc; [reflexivity|].
    rewrite E1, in_app_iff. simpl. intuition discriminate. }
  assert (E3 : map fst (col_set "function_order" (repeat (of_int fo) (nrows d))
                 (col_set "derivative_value" (map of_float dv)
                   (col_set "smoothed_value" (map of_float sm) (columns d))))
               = map fst (columns d)
                 ++ ["smoothed_value"; "derivative_value"; "function_order"]).
  { rewrite col_set_names_new, E2, <- ?app_assoc; [reflexivity|].
    rewrite E2, in_app_iff. simpl. intuition discriminate. }
  assert (E4 : map fst (col_set "derivative_method" (repeat (Str method) (nrows d))
                 (col_set "function_order" (repeat (of_int fo) (nrows d))
                   (col_set "derivative_value" (map of_float dv)
                     (col_set "smoothed_value" (map of_float sm) (columns d)))))
               = map fst (columns d)
                 ++ ["smoothed_value"; "derivative_value"; "function_order";
                     "derivative_method"]).
  { rewrite col_set_names_new, E3, <- ?app_assoc; [reflexivity|].
    rewrite E3, in_app_iff. simpl. intuition discriminate. }
  rewrite col_set_names_new, E4, <- ?app_assoc; [reflexivity|].
  rewrite E4, in_app_iff. simpl. intuition discriminate.
Qed.

Lemma naive_frame_names d m :
  Forall (fun n => ~ In n (column_names d)) naive_columns ->
  column_names (naive_frame d m) = column_names d ++ naive_columns.
Proof.
  unfold naive_columns, column_names, naive_frame. cbn [columns with_columns].
  intros Hnew.
  inversion Hnew as [|? ? H1 Hnew1]; subst.
  inversion Hnew1 as [|? ? H2 Hnew2]; subst.
  inversion Hnew2 as [|? ? H3 Hnew3]; subst.
  inversion Hnew3 as [|? ? H4 _]; subst.
  assert (E1 : map fst (col_set "derivative_value" m (columns d))
               = map fst (columns d) ++ ["derivative_value"])
    by now apply col_set_names_new.
  assert (E2 : map fst (col_set "derivative_method" (repeat (Str "naive") (nrows d))
                 (col_set "derivative_value" m (columns d)))
               = map fst (columns d) ++ ["derivative_value"; "derivative_method"]).
  { rewrite col_set_names_new, E1, <- ?app_assoc; [reflexivity|].
    rewrite E1, in_app_iff. simpl. intuition discriminate. }
  assert (E3 : map fst (col_set "function_order" (repeat PyNone (nrows d))
                 (col_set "derivative_method" (repeat (Str "naive") (nrows d))
                   (col_set "derivative_value" m (columns d))))
               = map fst (columns d)
                 ++ ["derivative_value"; "derivative_method"; "function_order"]).
  { rewrite col_set_names_new, E2, <- ?app_assoc; [reflexivity|].
    rewrite E2, in_app_iff. simpl. intuition discriminate. }
  rewrite col_set_names_new, E3, <- ?app_assoc; [reflexivity|].
  rewrite E3, in_app_iff. simpl. intuition discriminate.
Qed.

Lemma estimate_frame_prefix method d sm dv fo do :
  column_names d `prefix_of` column_names (estimate_frame method d sm dv fo do).
Proof.
  unfold column_names, estimate_frame. cbn [columns with_columns].
  repeat (etrans; [|apply col_set_names_prefix]). reflexivity.
Qed.

Lemma naive_frame_prefix d m :
  column_names d `prefix_of` column_names (naive_frame d m).
Proof.
  unfold column_names, naive_frame. cbn [columns with_columns].
  repeat (etrans; [|apply col_set_names_prefix]). reflexivity.
Qed.

Section ColumnOrder.
Context `{NumericServices}.

(** X6.  The table an estimator returns has the input's columns in their
    places, first; a table that had none of the written columns gets them
    appended in the order of the assignments: [smoothed_value] (not for
    [naive_trend]), [derivative_value], then the three tags in the order
    in which the estimator assigns them. *)
Theorem estimators_column_order :
  forall (h : heap) (df : nat) (column_value : string) (d : DataFrame),
    h !! df = Some d -> wf_frame d ->
    (forall h' o,
        naive_trend df column_value h = (h', Ok o) ->
        exists odf, h' !! o = Some odf /\
          column_names d `prefix_of` column_names odf /\
          (Forall (fun n => ~ In n (column_names d)) naive_columns ->
           column_names odf = column_names d ++ naive_columns)) /\
    (forall function_order derivative_order s h' o,
        spline_trend df column_value function_order derivative_order s h
        = (h', Ok o) ->
        exists odf, h' !! o = Some odf /\
          column_names d `prefix_of` column_names odf /\
          (Forall (fun n => ~ In n (column_names d)) written_columns ->
           column_names odf = column_names d ++ written_columns)) /\
    (forall function_order derivative_order window_length h' o,
        sgolay_trend df column_value function_order derivative_order
                     window_length h = (h', Ok o) ->
        exists odf, h' !! o = Some odf /\
          column_names d `prefix_of` column_names odf /\
          (Forall (fun n => ~ In n (column_names d)) written_columns ->
           column_names odf = column_names d ++ written_columns)).
Proof.
  intros h df column_value d Hd Hwf. split; [|split].
  - intros h' o Hrun.
    destruct (naive_trend_ok _ _ _ _ _ Hrun)
      as (d' & y & d1 & y_y & d2 & m & Hd' & _ & _ & _ & _ & _ & -> & ->).
    assert (d' = d) as -> by congruence.
    eexists. split; [apply lookup_fresh|].
    split; [apply naive_frame_prefix | apply naive_frame_names].
  - intros fo do s h' o Hrun.
    destruct (spline_trend_ok _ _ _ _ _ _ _ _ Hrun)
      as (d' & y & spl & sm & dv & Hd' & _ & _ & _ & _ & -> & ->).
    assert (d' = d) as -> by congruence.
    eexists. split; [apply lookup_fresh|].
    split; [apply estimate_frame_prefix | apply estimate_frame_names].
  - intros fo do w h' o Hrun.
    destruct (sgolay_trend_ok _ _ _ _ _ _ _ _ _ Hd Hwf Hrun)
      as (y & sm & dv & _ & _ & _ & -> & ->).
    eexists. split; [apply lookup_fresh|].
    split; [apply estimate_frame_prefix | apply estimate_frame_names].
Qed.

End ColumnOrder.

(** ** An estimator applied to its own output, and the index labels *)








Lemma mean_axis1_labels name name' idx idx' cols :
  length idx = length idx' ->
  mean_axis1 (concat_axis1 name idx cols)
  = mean_axis1 (concat_axis1 name' idx' cols).
Proof.
  intros Hlen. unfold mean_axis1, nrows, row_at, concat_axis1.
  cbn [index columns]. now rewrite Hlen.
Qed.

Section Composition.
Context `{NumericServices}.


(** X8.  No estimator reads the labels of the index: on two tables with
    the same columns and as many rows, whatever their index labels, the
    tables returned have the same columns.  ([spline_trend] fits against
    the positions 0, 1, 2, ... of the rows.) *)
Theorem estimators_ignore_index_labels :
  forall (h : heap) (df df' : nat) (column_value : string) (d d' : DataFrame),
    h !! df = Some d -> h !! df' = Some d' ->
    wf_frame d -> wf_frame d' ->
    columns d = columns d' -> nrows d = nrows d' ->
    (forall h1 o1 h2 o2,
        naive_trend df column_value h = (h1, Ok o1) ->
        naive_trend df' column_value h = (h2, Ok o2) ->
        exists odf odf', h1 !! o1 = Some odf /\ h2 !! o2 = Some odf' /\
                         columns odf = columns odf') /\
    (forall function_order derivative_order s h1 o1 h2 o2,
        spline_trend df column_value function_order derivative_order s h
        = (h1, Ok o1) ->
        spline_trend df' column_value function_order derivative_order s h
        = (h2, Ok o2) ->
        exists odf odf', h1 !! o1 = Some odf /\ h2 !! o2 = Some odf' /\
                         columns odf = columns odf') /\
    (forall function_order derivative_order window_length h1 o1 h2 o2,
        sgolay_trend df column_value function_order derivative_order
                     window_length h = (h1, Ok o1) ->
        sgolay_trend df' column_value function_order derivative_order
                     window_length h = (h2, Ok o2) ->
        exists odf odf', h1 !! o1 = Some odf /\ h2 !! o2 = Some odf' /\
                         columns odf = columns odf').
Proof.
  intros h df df' column_value d d' Hd Hd' Hwf Hwf' Hcols Hrows.
  assert (Hget : getitem d' column_value = getitem d column_value).
  { unfold getitem. now rewrite Hcols. }
  split; [|split].
  - intros h1 o1 h2 o2 Hrun1 Hrun2.
    destruct (naive_trend_ok _ _ _ _ _ Hrun1)
      as (d0 & y & d1 & y_y & d2 & m & Hd0 & Hy & H1 & Hyy & H2 & Hm & -> & ->).
    assert (d0 = d) as -> by congruence.
    destruct (naive_trend_ok _ _ _ _ _ Hrun2)
      as (d0' & y' & d1' & y_y' & d2' & m' & Hd0' & Hy' & H1' & Hyy' & H2'
          & Hm' & -> & ->).
    assert (d0' = d') as -> by congruence.
    rewrite Hget in Hy'.
    assert (y' = y) as -> by congruence.
    assert (d1' = d1) as -> by congruence.
    assert (y_y' = y_y) as -> by congruence.
    assert (d2' = d2) as -> by congruence.
    rewrite (mean_axis1_labels _ (index_name d) _ (index d)) in Hm'
      by (symmetry; exact Hrows).
    assert (m' = m) as -> by congruence.
    eexists _, _. split; [apply lookup_fresh|]. split; [apply lookup_fresh|].
    unfold naive_frame. cbn [columns with_columns]. now rewrite Hcols, Hrows.
  - intros fo do s h1 o1 h2 o2 Hrun1 Hrun2.
    destruct (spline_trend_ok _ _ _ _ _ _ _ _ Hrun1)
      as (d0 & y & spl & sm & dv & Hd0 & Hy & Hspl & Hsm & Hdv & -> & ->).
    assert (d0 = d) as -> by congruence.
    destruct (spline_trend_ok _ _ _ _ _ _ _ _ Hrun2)
      as (d0' & y' & spl' & sm' & dv' & Hd0' & Hy' & Hspl' & Hsm' & Hdv'
          & -> & ->).
    assert (d0' = d') as -> by congruence.
    rewrite Hget in Hy'. rewrite <- Hrows in *.
    assert (y' = y) as -> by congruence.
    assert (spl' = spl) as -> by congruence.
    assert (sm' = sm) as -> by congruence.
    assert (dv' = dv) as -> by congruence.
    eexists _, _. split; [apply lookup_fresh|]. split; [apply lookup_fresh|].
    unfold estimate_frame. cbn [columns with_columns].
    now rewrite Hcols, Hrows.
  - intros fo do w h1 o1 h2 o2 Hrun1 Hrun2.
    destruct (sgolay_trend_ok _ _ _ _ _ _ _ _ _ Hd Hwf Hrun1)
      as (y & sm & dv & Hy & Hsm & Hdv & -> & ->).
    destruct (sgolay_trend_ok _ _ _ _ _ _ _ _ _ Hd' Hwf' Hrun2)
      as (y' & sm' & dv' & Hy' & Hsm' & Hdv' & -> & ->).
    rewrite Hget in Hy'.
    assert (y' = y) as -> by congruence.
    assert (sm' = sm) as -> by congruence.
    assert (dv' = dv) as -> by congruence.
    eexists _, _. split; [apply lookup_fresh|]. split; [apply lookup_fresh|].
    unfold estimate_frame. cbn [columns with_columns].
    now rewrite Hcols, Hrows.
Qed.

End Composition.

(** ** Failures of trending *)

Lemma tail_window_raises derivative_order k df e :
  tail_window derivative_order k df = Raise e -> e = AttributeError.
Proof.
  unfold tail_window, getattr, mbind, result_bind, mret, result_ret.
  destruct (col_lookup "derivative_order" (columns df)); congruence.
Qed.

Lemma tail_window_missing derivative_order k df :
  has_column df "derivative_order" = false ->
  is_ok (tail_window derivative_order k df) = false.
Proof.
  unfold tail_window, getattr, has_column.
  destruct (col_lookup "derivative_order" (columns df));
    [discriminate | reflexivity].
Qed.

Lemma col_lookup_absent name cols :
  ~ In name (map fst cols) -> col_lookup name cols = None.
Proof.
  intros Hnot. destruct (col_lookup name cols) eqn:Hc; [|reflexivity].
  apply col_lookup_In in Hc. contradiction.
Qed.

Lemma In_col_lookup name cols :
  In name (map fst cols) -> exists c, col_lookup name cols = Some c.
Proof.
  induction cols as [|[n c] rest IH]; simpl; [tauto|].
  destruct (String.eqb_spec n name); [eauto|].
  intros [Heq|Hin]; [contradiction | auto].
Qed.

Lemma window_has_column derivative_order k df w name :
  tail_window derivative_order k df = Ok w ->
  has_column w name = has_column df name /\ index_name w = index_name df.
Proof.
  unfold tail_window, getattr.
  destruct (col_lookup "derivative_order" (columns df)) as [col|];
    [|discriminate].
  intros [= <-]. split; [|reflexivity].
  unfold has_column. rewrite window_lookup.
  destruct (col_lookup name (columns df)); reflexivity.
Qed.

Section TrendingFailures.
Context `{NumericServices}.

(** X9.  On the empty list [trending] raises [ValueError] (there is
    nothing to concatenate), and on a list in which some table has no
    [derivative_order] column it raises [AttributeError]; in both cases no
    table is created. *)
Theorem trending_empty_or_untagged :
  forall (h : heap) (column_id max_or_avg : string) (derivative_order k : Z),
    trending [] column_id derivative_order max_or_avg k h
    = (h, Raise ValueError) /\
    forall refs dfs,
      Forall2 (fun r df => h !! r = Some df) refs dfs ->
      Exists (fun df => has_column df "derivative_order" = false) dfs ->
      trending refs column_id derivative_order max_or_avg k h
      = (h, Raise AttributeError).
Proof.
  intros h column_id max_or_avg derivative_order k. split; [reflexivity|].
  intros refs dfs Hrefs Hmissing.
  rewrite (trending_run _ _ _ _ _ _ _ Hrefs).
  rewrite (traverse_raise _ _ AttributeError); [reflexivity| |].
  - intros df e. apply tail_window_raises.
  - apply List.Exists_exists in Hmissing as (df & Hdf & Hcol).
    exists df. split; [exact Hdf|]. now apply tail_window_missing.
Qed.

(** X10.  [trending] groups by the column [id] whatever [column_id] says:
    on tables that have their [derivative_order] column but no column [id]
    (nor an index of that name) it raises [KeyError] for every
    [column_id], and creates no table. *)
Theorem trending_needs_the_id_column :
  forall (h : heap) (refs : list nat) (dfs : list DataFrame)
         (column_id max_or_avg : string) (derivative_order k : Z),
    dfs <> [] ->
    Forall2 (fun r df => h !! r = Some df) refs dfs ->
    Forall (fun df => has_column df "derivative_order" = true) dfs ->
    Forall (fun df => has_column df "id" = false /\
                      index_name df <> Some "id") dfs ->
    trending refs column_id derivative_order max_or_avg k h
    = (h, Raise KeyError).
Proof.
  intros h refs dfs column_id max_or_avg derivative_order k
    Hne Hrefs Horder Hnoid.
  destruct (traverse_total (tail_window derivative_order k) dfs) as [ws Hws].
  { intros df Hdf. rewrite List.Forall_forall in Horder.
    destruct (has_column_lookup _ _ (Horder df Hdf)) as [col Hcol].
    rewrite (tail_window_run _ _ _ _ Hcol). eauto. }
  pose proof (traverse_Forall2 _ _ _ Hws) as Hall.
  assert (Hwnoid : Forall (fun w => has_column w "id" = false /\
                                    index_name w <> Some "id") ws).
  { clear -Hall Hnoid. induction Hall as [|df w dfs ws Hw _ IH];
      [constructor|].
    inversion Hnoid as [|? ? [Hid Hname] Hrest]; subst.
    destruct (window_has_column _ _ _ _ "id" Hw) as [Hwid Hwname].
    constructor; [|auto]. rewrite Hwid, Hwname. auto. }
  rewrite (trending_run _ _ _ _ _ _ _ Hrefs), Hws.
  destruct ws as [|w0 ws0] eqn:Hwseq.
  { inversion Hall; subst. contradiction. }
  rewrite <- Hwseq in *.
  assert (Hconcat : exists tdf, pd_concat ws = Ok tdf /\
            col_lookup "id" (columns tdf) = None /\
            index_name tdf = common_name ws).
  { subst ws. eexists. split; [reflexivity|]. split; [|reflexivity].
    cbn [columns]. apply col_lookup_absent. rewrite map_map. cbn [fst].
    rewrite map_id. intros Hin. apply fold_add_names_In in Hin.
    destruct Hin as [[]|(w & Hw & Hcol)].
    rewrite List.Forall_forall in Hwnoid. destruct (Hwnoid w Hw) as [Hid _].
    apply In_col_lookup in Hcol as [c Hc]. unfold has_column in Hid.
    now rewrite Hc in Hid. }
  destruct Hconcat as (tdf & -> & Hid & Hname).
  unfold groupby_agg, grouper. rewrite Hid, Hname.
  rewrite common_name_not; [reflexivity|].
  eapply List.Forall_impl; [|exact Hwnoid]. intros w Hw. apply Hw.
Qed.

(** X11.  On trend tables, a [max_or_avg] that is neither ['max'], ['avg']
    nor ['mean'] and that names no reduction makes [trending] raise
    [AttributeError], and creates no table. *)
Theorem trending_unknown_reduction :
  forall (h : heap) (refs : list nat) (dfs : list DataFrame)
         (column_id max_or_avg : string) (derivative_order k : Z),
    dfs <> [] ->
    Forall2 (fun r df => h !! r = Some df) refs dfs ->
    Forall trend_table dfs ->
    max_or_avg <> "max" -> max_or_avg <> "avg" -> max_or_avg <> "mean" ->
    named_reduction max_or_avg = None ->
    trending refs column_id derivative_order max_or_avg k h
    = (h, Raise AttributeError).
Proof.
  intros h refs dfs column_id max_or_avg derivative_order k
    Hne Hrefs Htables Hmax Havg Hmean Hnone.
  destruct (pooled_table derivative_order k dfs Hne Htables)
    as (ws & tdf & Hws & _ & Htdf & Hkeys & Hvals & _).
  rewrite (trending_run _ _ _ _ _ _ _ Hrefs), Hws, Htdf.
  unfold groupby_agg, agg_name. rewrite Hkeys, Hvals.
  destruct (String.eqb_spec max_or_avg "avg"); [contradiction|].
  unfold reduction_of.
  destruct (String.eqb_spec max_or_avg "max"); [contradiction|].
  destruct (String.eqb_spec max_or_avg "mean"); [contradiction|].
  now rewrite Hnone.
Qed.

End TrendingFailures.

(** ** The ranking table *)

Lemma tail_windows_loaded (h h' : heap) refs derivative_order k ws :
  tail_windows refs derivative_order k h = (h', Ok ws) ->
  exists dfs, Forall2 (fun r df => h !! r = Some df) refs dfs.
Proof.
  revert h' ws. induction refs as [|r rest IH]; intros h' ws Hrun.
  - exists []. constructor.
  - simpl in Hrun. run_in Hrun.
    destruct (h !! r) as [d|] eqn:Hd; [|discriminate].
    destruct (tail_window derivative_order k d); [|discriminate].
    destruct (tail_windows rest derivative_order k h) as [h1 [ws1|e]];
      [|discriminate].
    destruct (IH h1 ws1 eq_refl) as [dfs Hdfs].
    exists (d :: dfs). constructor; auto.
Qed.

Lemma group_keys_present keys :
  Forall (fun c => isna c = false) (group_keys keys).
Proof.
  apply List.Forall_forall. intros x Hx. now apply group_keys_In in Hx.
Qed.

Section RankingTable.
Context `{NumericServices}.

(** X12.  Whatever tables it is given, a table [trending] returns is a new
    object with a fresh RangeIndex and exactly the two columns [id] and
    [max_or_avg], of one length; its ids are in ascending order, pairwise
    distinct, and none of them is missing. *)
Theorem trending_returns_a_ranking :
  forall (h h' : heap) (refs : list nat) (o : nat)
         (column_id max_or_avg : string) (derivative_order k : Z),
    trending refs column_id derivative_order max_or_avg k h = (h', Ok o) ->
    exists out scores,
      o = length h /\ h' = h ++ [ranking_table out scores] /\
      length scores = length out /\
      Sorted key_le out /\ NoDupA same_key out /\
      Forall (fun c => isna c = false) out.
Proof.
  intros h h' refs o column_id max_or_avg derivative_order k Hrun.
  assert (Hrefs : exists dfs, Forall2 (fun r df => h !! r = Some df) refs dfs).
  { unfold trending in Hrun. rewrite bind_run in Hrun.
    destruct (tail_windows refs derivative_order k h) as [h1 [ws|e]] eqn:Hws;
      [|discriminate].
    eapply tail_windows_loaded; eauto. }
  destruct Hrefs as [dfs Hrefs].
  rewrite (trending_run _ _ _ _ _ _ _ Hrefs) in Hrun.
  destruct (traverse _ dfs) as [ws|]; [|discriminate].
  destruct (pd_concat ws) as [tdf|]; [|discriminate].
  destruct (groupby_agg tdf "id" "derivative_value" (agg_name max_or_avg))
    as [g|] eqn:Hg; [|discriminate].
  destruct (groupby_agg_ok _ _ _ Hg)
    as (keys & vals & f & scores & _ & _ & _ & Hscores & ->).
  cbn [columns index] in Hrun. inversion Hrun; subst.
  exists (group_keys keys), scores. repeat split.
  - now apply traverse_length in Hscores.
  - apply group_keys_Sorted.
  - apply group_keys_NoDupA.
  - apply group_keys_present.
Qed.

End RankingTable.

(** ** The score under 'max' *)

Lemma qmax_ge_l a b : (a <= qmax a b)%Q.
Proof.
  unfold qmax. destruct (Qle_bool a b) eqn:Hab.
  - now apply Qle_bool_iff.
  - apply Qle_refl.
Qed.

Lemma qmax_ge_r a b : (b <= qmax a b)%Q.
Proof.
  unfold qmax. destruct (Qle_bool a b) eqn:Hab.
  - apply Qle_refl.
  - apply Qlt_le_weak, Qnot_le_lt. intros Hle.
    apply Qle_bool_iff in Hle. congruence.
Qed.

Lemma qmax_cases a b : qmax a b = a \/ qmax a b = b.
Proof. unfold qmax. destruct (Qle_bool a b); auto. Qed.

Lemma fold_qmax qs q0 :
  In (fold_left qmax qs q0) (q0 :: qs) /\
  forall q, In q (q0 :: qs) -> (q <= fold_left qmax qs q0)%Q.
Proof.
  revert q0. induction qs as [|q1 rest IH]; intros q0.
  - simpl. split; [now left|]. intros q [<-|[]]. apply Qle_refl.
  - destruct (IH (qmax q0 q1)) as [Hin Hub].
    cbn [fold_left]. split.
    + destruct Hin as [Hm|Hm]; [|right; right; exact Hm].
      destruct (qmax_cases q0 q1) as [E|E]; rewrite E in Hm |- *.
      * now left.
      * right. now left.
    + intros q [<-|[<-|Hq]].
      * eapply Qle_trans; [apply qmax_ge_l|]. apply Hub. now left.
      * eapply Qle_trans; [apply qmax_ge_r|]. apply Hub. now left.
      * apply Hub. now right.
Qed.

Lemma floats_of_numbers l qs : floats_of l = Ok qs -> qs = numbers_of l.
Proof.
  revert qs. induction l as [|c rest IH]; simpl; intros qs Hqs.
  - now inversion Hqs.
  - destruct c; try discriminate.
    + now apply IH.
    + destruct (floats_of rest) as [qs'|]; [|discriminate].
      inversion Hqs. simpl. f_equal. now apply IH.
Qed.

Lemma numbers_of_In q l : In q (numbers_of l) <-> In (Num q) l.
Proof.
  unfold numbers_of. rewrite in_flat_map. split.
  - intros (c & Hc & Hq). destruct c; simpl in Hq; try tauto.
    destruct Hq as [->|[]]. exact Hc.
  - intros Hin. exists (Num q). split; [exact Hin | now left].
Qed.

(** The reduction ['max']: NaN over no number, else a number of the group
    that none of its numbers exceeds. *)
Lemma reduce_max_is_max l v :
  reduce_max l = Ok v ->
  (v = NaN /\ forall q, ~ In (Num q) l) \/
  (exists m, v = Num m /\ In (Num m) l /\
             forall q, In (Num q) l -> (q <= m)%Q).
Proof.
  unfold reduce_max. destruct (floats_of l) as [qs|] eqn:Hqs; [|discriminate].
  apply floats_of_numbers in Hqs. destruct qs as [|q0 rest].
  - intros [= <-]. left. split; [reflexivity|].
    intros q Hq. apply numbers_of_In in Hq. now rewrite <- Hqs in Hq.
  - intros [= <-]. right. destruct (fold_qmax rest q0) as [Hin Hub].
    eexists. split; [reflexivity|]. split.
    + apply numbers_of_In. now rewrite <- Hqs.
    + intros q Hq. apply Hub. rewrite Hqs. now apply numbers_of_In.
Qed.

Lemma traverse_lookup {A B} (f : A -> result B) l out i x v :
  traverse f l = Ok out ->
  nth_error l i = Some x -> nth_error out i = Some v -> f x = Ok v.
Proof.
  intros Hrun. apply traverse_Forall2 in Hrun. revert i.
  induction Hrun as [|x0 v0 l out Hx0 _ IH]; intros [|i]; simpl;
    try discriminate.
  - now intros [= <-] [= <-].
  - apply IH.
Qed.

Section MaxScore.
Context `{NumericServices}.

(** X13.  On a non-empty list of trend tables, with ['max'], the score in
    the row of an id is the largest derivative value among the pooled
    tail-window rows of that id: it is one of them and none exceeds it (it
    is NaN when those rows hold no number).  The pool is over all tables:
    tables that share an id share the row. *)
Theorem max_score_is_the_maximum :
  forall (h : heap) (refs : list nat) (dfs : list DataFrame)
         (column_id : string) (derivative_order k : Z),
    dfs <> [] ->
    Forall2 (fun r df => h !! r = Some df) refs dfs ->
    Forall trend_table dfs ->
    exists ws out scores,
      Forall2 (fun df w => tail_window derivative_order k df = Ok w) dfs ws /\
      trending refs column_id derivative_order "max" k h
      = (h ++ [ranking_table out scores], Ok (length h)) /\
      forall i key v,
        nth_error out i = Some key -> nth_error scores i = Some v ->
        let group :=
          group_values key (flat_map (column_or_nan "id") ws)
                       (flat_map (column_or_nan "derivative_value") ws) in
        (v = NaN /\ forall q, ~ In (Num q) group) \/
        (exists m, v = Num m /\ In (Num m) group /\
                   forall q, In (Num q) group -> (q <= m)%Q).
Proof.
  intros h refs dfs column_id derivative_order k Hne Hrefs Htables.
  destruct (trending_on_trend_tables h refs dfs column_id derivative_order
              "max" k Hne Hrefs Htables (or_introl eq_refl))
    as (ws & scores & Hws & Hscores & Hrun).
  exists ws, (group_keys (flat_map (column_or_nan "id") ws)), scores.
  split; [exact Hws|]. split; [exact Hrun|].
  intros i key v Hkey Hv group.
  apply reduce_max_is_max.
  exact (traverse_lookup _ _ _ _ _ _ Hscores Hkey Hv).
Qed.

End MaxScore.

(** ** The size of a tail window *)

(** X14.  The tail window [[-k:]] of the rows of the requested order, [n]
    of them: for [k >= 1] it has [min k n] rows; for [k = 0] it has all
    [n], since [[-0:]] is [[0:]]; and for a negative [k] the slice drops
    the first [-k] rows and has [n - min (-k) n]. *)
Theorem tail_window_size :
  forall (derivative_order k : Z) (df : DataFrame),
    wf_frame df -> has_column df "derivative_order" = true ->
    exists w,
      tail_window derivative_order k df = Ok w /\
      let n := matching_rows derivative_order df in
      ((1 <= k)%Z -> nrows w = Nat.min (Z.to_nat k) n) /\
      (k = 0%Z -> nrows w = n) /\
      ((k < 0)%Z -> nrows w = n - Nat.min (Z.to_nat (- k)) n).
Proof.
  intros derivative_order k df Hwf Horder.
  destruct (has_column_lookup _ _ Horder) as [col Hcol].
  eexists. split; [exact (tail_window_run _ _ _ _ Hcol)|].
  unfold iloc_from, nrows. cbn [index]. rewrite length_skipn.
  unfold frame_filter. cbn [index].
  rewrite (matching_rows_index _ _ _ Hwf Hcol).
  unfold slice_start.
  repeat split; intros Hk; destruct (Z.ltb_spec (- k) 0); lia.
Qed.

(** ** What trending reads *)

Lemma window_columns_alike derivative_order k df df' w w' :
  trend_table df -> trend_table df' -> reads_alike df df' ->
  tail_window derivative_order k df = Ok w ->
  tail_window derivative_order k df' = Ok w' ->
  column_or_nan "id" w = column_or_nan "id" w' /\
  column_or_nan "derivative_value" w = column_or_nan "derivative_value" w'.
Proof.
  intros [Hwf Horder Hid (vals & Hvals & _) _] [Hwf' _ _ _ _]
    (Ho & Hi & Hv) Hw Hw'.
  destruct (has_column_lookup _ _ Horder) as [col Hcol].
  destruct (has_column_lookup _ _ Hid) as [ids Hids].
  assert (Hm : matching_rows derivative_order df'
               = matching_rows derivative_order df).
  { unfold matching_rows. now rewrite <- Ho. }
  rewrite Ho in Hcol. rewrite Hi in Hids. rewrite Hv in Hvals.
  destruct (tail_window_column derivative_order k df' col _ _ Hwf' Hcol Hids)
    as (x & Hx & _ & Hxi).
  destruct (tail_window_column derivative_order k df' col _ _ Hwf' Hcol Hvals)
    as (x' & Hx' & _ & Hxv).
  assert (x = w') as -> by congruence. assert (x' = w') as -> by congruence.
  rewrite <- Ho in Hcol. rewrite <- Hi in Hids. rewrite <- Hv in Hvals.
  destruct (tail_window_column derivative_order k df col _ _ Hwf Hcol Hids)
    as (z & Hz & _ & Hzi).
  destruct (tail_window_column derivative_order k df col _ _ Hwf Hcol Hvals)
    as (z' & Hz' & _ & Hzv).
  assert (z = w) as -> by congruence. assert (z' = w) as -> by congruence.
  rewrite Hxi, Hxv, Hzi, Hzv, Hm. auto.
Qed.

Lemma pooled_columns_alike derivative_order k dfs dfs' ws ws' :
  Forall2 reads_alike dfs dfs' ->
  Forall trend_table dfs -> Forall trend_table dfs' ->
  Forall2 (fun df w => tail_window derivative_order k df = Ok w) dfs ws ->
  Forall2 (fun df w => tail_window derivative_order k df = Ok w) dfs' ws' ->
  flat_map (column_or_nan "id") ws = flat_map (column_or_nan "id") ws' /\
  flat_map (column_or_nan "derivative_value") ws
  = flat_map (column_or_nan "derivative_value") ws'.
Proof.
  intros Halike. revert ws ws'.
  induction Halike as [|df df' dfs dfs' Hdf _ IH];
    intros ws ws' Ht Ht' Hws Hws'.
  - inversion Hws. inversion Hws'. auto.
  - inversion Hws as [|? w ? ws0 Hw Hws0]; subst.
    inversion Hws' as [|? w' ? ws0' Hw' Hws0']; subst.
    inversion Ht; subst. inversion Ht'; subst.
    destruct (window_columns_alike derivative_order k df df' w w')
      as [Ei Ev]; auto.
    destruct (IH ws0 ws0') as [IHi IHv]; auto.
    simpl. now rewrite Ei, Ev, IHi, IHv.
Qed.

Section WhatTrendingReads.
Context `{NumericServices}.

(** X15.  [trending] reads three columns of its tables and nothing else:
    on two lists of trend tables that agree, table by table, on
    [derivative_order], [id] and [derivative_value], it returns the same
    ranking table, whatever the other columns, the index labels and
    [column_id] are. *)
Theorem trending_reads_three_columns :
  forall (h h' : heap) (refs refs' : list nat) (dfs dfs' : list DataFrame)
         (column_id column_id' max_or_avg : string) (derivative_order k : Z),
    dfs <> [] ->
    Forall2 (fun r df => h !! r = Some df) refs dfs ->
    Forall2 (fun r df => h' !! r = Some df) refs' dfs' ->
    Forall trend_table dfs -> Forall trend_table dfs' ->
    Forall2 reads_alike dfs dfs' ->
    max_or_avg = "max" \/ max_or_avg = "avg" ->
    exists ranking,
      trending refs column_id derivative_order max_or_avg k h
      = (h ++ [ranking], Ok (length h)) /\
      trending refs' column_id' derivative_order max_or_avg k h'
      = (h' ++ [ranking], Ok (length h')).
Proof.
  intros h h' refs refs' dfs dfs' column_id column_id' max_or_avg
    derivative_order k Hne Hrefs Hrefs' Ht Ht' Halike Hmode.
  assert (Hne' : dfs' <> []).
  { intros ->. inversion Halike. subst. contradiction. }
  destruct (trending_on_trend_tables h refs dfs column_id derivative_order
              max_or_avg k Hne Hrefs Ht Hmode)
    as (ws & scores & Hws & Hscores & Hrun).
  destruct (trending_on_trend_tables h' refs' dfs' column_id' derivative_order
              max_or_avg k Hne' Hrefs' Ht' Hmode)
    as (ws' & scores' & Hws' & Hscores' & Hrun').
  destruct (pooled_columns_alike derivative_order k dfs dfs' ws ws'
              Halike Ht Ht' Hws Hws') as [Ei Ev].
  cbv zeta in *. rewrite <- Ei in Hscores', Hrun'. rewrite <- Ev in Hscores'.
  assert (scores' = scores) as -> by congruence.
  eexists. split; [exact Hrun | exact Hrun'].
Qed.

End WhatTrendingReads.

(** ** Instances *)

Lemma wf_gappy_series : wf_frame gappy_series.
Proof. repeat constructor. Qed.

Lemma wf_dated_series : wf_frame dated_series.
Proof. repeat constructor. Qed.

Lemma trend_table_relabelled : trend_table table_A_relabelled.
Proof.
  split.
  - repeat constructor.
  - reflexivity.
  - reflexivity.
  - eexists. split; reflexivity.
  - discriminate.
Qed.

Lemma naive_trend_on_floats_witness :
  exists m,
    naive_trend 0 "value" [gappy_series]
    = ([gappy_series] ++ [naive_frame gappy_series m], Ok 1) /\
    length m = 4 /\
    forall i c, nth_error [Num 1; NaN; Num 4; PyNone] i = Some c ->
      isna c = true -> nth_error m i = Some NaN.
Proof.
  apply (naive_trend_on_floats [gappy_series] 0 "value" gappy_series
           [Num 1; NaN; Num 4; PyNone]).
  - reflexivity.
  - exact wf_gappy_series.
  - reflexivity.
  - reflexivity.
Defined.

Lemma naive_trend_tags_every_row_witness :
  exists odf,
    [short_series;
     naive_frame short_series [Num (-2); Num (-3 # 2); Num (-3 # 2)]] !! 1
    = Some odf /\
    tagged_with odf "derivative_method" (Str "naive") /\
    tagged_with odf "function_order" PyNone /\
    tagged_with odf "derivative_order" (of_int 1).
Proof.
  apply (naive_trend_tags_every_row [short_series] _ 0 1 "value").
  vm_compute. reflexivity.
Defined.

Lemma naive_trend_failures_witness :
  (has_column label_table "price" = false ->
   naive_trend 0 "price" [label_table] = ([label_table], Raise KeyError)) /\
  naive_trend 0 "value" [label_table] = ([label_table], Raise TypeError).
Proof.
  split.
  - apply (naive_trend_failures [label_table] 0 "price" label_table eq_refl).
  - destruct (naive_trend_failures [label_table] 0 "value" label_table eq_refl)
      as [_ Htype].
    apply (Htype [Num 1; Str "two"] "two").
    + reflexivity.
    + right. now left.
Defined.

Lemma estimators_missing_column_witness :
  sgolay_trend (H := small_services) 0 "price" 3 1 15 [short_series]
  = ([short_series], Raise KeyError) /\
  spline_trend (H := small_services) 0 "price" 3 1 3 [short_series]
  = ([short_series], match reset_index short_series with
                     | Ok _ => Raise KeyError
                     | Raise e => Raise e
                     end).
Proof.
  apply (estimators_missing_column (H := small_services) [short_series] 0
           "price" short_series); reflexivity.
Defined.

Lemma spline_trend_index_name_clash_witness :
  spline_trend (H := small_services) 0 "value" 3 1 3 [value_indexed_series]
  = ([value_indexed_series], Raise ValueError).
Proof.
  apply (spline_trend_index_name_clash (H := small_services)
           [value_indexed_series] 0 "value" "value" value_indexed_series);
    reflexivity.
Defined.

Lemma estimators_column_order_witness :
  (exists odf,
      fst (naive_trend 0 "value" [short_series]) !! 1 = Some odf /\
      column_names short_series `prefix_of` column_names odf /\
      (Forall (fun n => ~ In n (column_names short_series)) naive_columns ->
       column_names odf = column_names short_series ++ naive_columns)) /\
  (exists odf,
      fst (sgolay_trend (H := small_services) 0 "value" 0 1 1 [short_series])
        !! 1 = Some odf /\
      column_names short_series `prefix_of` column_names odf /\
      (Forall (fun n => ~ In n (column_names short_series)) written_columns ->
       column_names odf = column_names short_series ++ written_columns)).
Proof.
  destruct (estimators_column_order (H := small_services) [short_series] 0
              "value" short_series eq_refl wf_short_series)
    as (Hnaive & _ & Hsgolay).
  split.
  - exact (Hnaive _ 1 eq_refl).
  - exact (Hsgolay 0%Z 1%Z 1%Z _ 1 eq_refl).
Defined.


Lemma estimators_ignore_index_labels_witness :
  exists odf odf',
    fst (sgolay_trend (H := small_services) 0 "value" 0 1 1
           [short_series; dated_series]) !! 2 = Some odf /\
    fst (sgolay_trend (H := small_services) 1 "value" 0 1 1
           [short_series; dated_series]) !! 2 = Some odf' /\
    columns odf = columns odf'.
Proof.
  destruct (estimators_ignore_index_labels (H := small_services)
              [short_series; dated_series] 0 1 "value" short_series
              dated_series eq_refl eq_refl wf_short_series wf_dated_series
              eq_refl eq_refl)
    as (_ & _ & Hsgolay).
  apply (Hsgolay 0%Z 1%Z 1%Z _ 2 _ 2); vm_compute; reflexivity.
Defined.

Lemma trending_empty_or_untagged_witness :
  trending (H := small_services) [] "id" 1 "max" 5 [short_series]
  = ([short_series], Raise ValueError) /\
  trending (H := small_services) [1; 0] "id" 1 "max" 5 [short_series; table_A]
  = ([short_series; table_A], Raise AttributeError).
Proof.
  destruct (trending_empty_or_untagged (H := small_services)
              [short_series] "id" "max" 1 5) as [Hempty _].
  destruct (trending_empty_or_untagged (H := small_services)
              [short_series; table_A] "id" "max" 1 5) as [_ Huntagged].
  split; [exact Hempty|].
  apply (Huntagged [1; 0] [table_A; short_series]).
  - repeat constructor.
  - right. now left.
Defined.

Lemma trending_needs_the_id_column_witness :
  trending (H := small_services) [0] "series" 1 "max" 2 [series_keyed]
  = ([series_keyed], Raise KeyError).
Proof.
  apply (trending_needs_the_id_column (H := small_services) [series_keyed]
           [0] [series_keyed]).
  - discriminate.
  - repeat constructor.
  - repeat constructor.
  - repeat constructor; discriminate.
Defined.

Lemma trending_unknown_reduction_witness :
  trending (H := small_services) [0; 1] "id" 1 "largest" 2 [table_A; table_B]
  = ([table_A; table_B], Raise AttributeError).
Proof.
  apply (trending_unknown_reduction (H := small_services) [table_A; table_B]
           [0; 1] [table_A; table_B]); try discriminate; try reflexivity.
  - repeat constructor.
  - repeat constructor; now apply trend_table_tagged.
Defined.

Lemma trending_returns_a_ranking_witness :
  exists out scores,
    2 = length [falling_A; rising_B] /\
    [falling_A; rising_B; ranking_table [Str "A"; Str "B"] [Num (-1); Num 1]]
    = [falling_A; rising_B] ++ [ranking_table out scores] /\
    length scores = length out /\
    Sorted key_le out /\ NoDupA same_key out /\
    Forall (fun c => isna c = false) out.
Proof.
  apply (trending_returns_a_ranking (H := small_services)
           [falling_A; rising_B] _ [0; 1] 2 "id" "max" 1 2).
  vm_compute. reflexivity.
Defined.

Lemma max_score_is_the_maximum_witness :
  exists ws out scores,
    Forall2 (fun df w => tail_window 1 3 df = Ok w) [early_peak; table_A] ws /\
    trending (H := small_services) [0; 1] "id" 1 "max" 3 [early_peak; table_A]
    = ([early_peak; table_A] ++ [ranking_table out scores], Ok 2) /\
    forall i key v,
      nth_error out i = Some key -> nth_error scores i = Some v ->
      let group :=
        group_values key (flat_map (column_or_nan "id") ws)
                     (flat_map (column_or_nan "derivative_value") ws) in
      (v = NaN /\ forall q, ~ In (Num q) group) \/
      (exists m, v = Num m /\ In (Num m) group /\
                 forall q, In (Num q) group -> (q <= m)%Q).
Proof.
  apply (max_score_is_the_maximum (H := small_services) [early_peak; table_A]
           [0; 1] [early_peak; table_A] "id" 1 3).
  - discriminate.
  - repeat constructor.
  - repeat constructor; now apply trend_table_tagged.
Defined.

Lemma tail_window_size_witness :
  exists w,
    tail_window 1 2 table_A = Ok w /\
    let n := matching_rows 1 table_A in
    ((1 <= 2)%Z -> nrows w = Nat.min (Z.to_nat 2) n) /\
    (2%Z = 0%Z -> nrows w = n) /\
    ((2 < 0)%Z -> nrows w = n - Nat.min (Z.to_nat (- 2)) n).
Proof.
  apply (tail_window_size 1 2 table_A).
  - now apply trend_table_tagged.
  - reflexivity.
Defined.

Lemma trending_reads_three_columns_witness :
  exists ranking,
    trending (H := small_services) [0] "id" 1 "avg" 2 [table_A]
    = ([table_A] ++ [ranking], Ok 1) /\
    trending (H := small_services) [1] "name" 1 "avg" 2
             [table_B; table_A_relabelled]
    = ([table_B; table_A_relabelled] ++ [ranking], Ok 2).
Proof.
  apply (trending_reads_three_columns (H := small_services) [table_A]
           [table_B; table_A_relabelled] [0] [1] [table_A]
           [table_A_relabelled]).
  - discriminate.
  - repeat constructor.
  - repeat constructor.
  - repeat constructor; now apply trend_table_tagged.
  - constructor; [exact trend_table_relabelled | constructor].
  - repeat constructor.
  - now right.
Defined.
